(** * CORAL implementation recipe: label encoding, rank loss, rank decoding

    A shallow embedding of the three pieces of logic of
    [coral-implementation-recipe.ipynb]:

    - [label_to_levels]  (cell "Implement a function that converts class labels"),
    - [loss_fn1] and [loss_fn2]  (cells "Implement the loss function"),
    - [predicted_labels]  (cell "Evaluate the neural network").

    Numbers.  The notebook computes on [torch.float32] tensors.  Here a
    tensor entry is a real number of [R]: rounding, overflow and the
    saturation of [torch.sigmoid] to exactly [1.0] are not represented, so
    every statement below is a statement about the exact arithmetic that the
    float computation approximates.  The one non-real value that does not
    come from rounding, the [nan] that [torch.mean] returns on an empty
    tensor, is kept ([NaN]).

    Tensors.  A 1-D tensor is the list of its entries, a 2-D tensor the list
    of its rows (a batch: one row per example).  A torch tensor is
    rectangular; [rect n t] says that every row of [t] has [n] entries.  The
    column count of a batch with no rows is not represented. *)

From Stdlib Require Import Reals.Reals Lists.List ZArith.ZArith Arith.PeanoNat.
From Stdlib Require Import micromega.Lia micromega.Lra micromega.Psatz.
From Stdlib Require Import Sorting.Permutation Bool.Bool.
Import ListNotations.

Open Scope R_scope.

(** ** Errors and scalars *)

(** The only exception the modelled expressions can raise is the
    [RuntimeError] of a failed broadcast ("The size of tensor a must match
    the size of tensor b at non-singleton dimension ..."). *)
Inductive exn : Type :=
| RuntimeError.

Inductive result (A : Type) : Type :=
| Ok (a : A)
| Raise (e : exn).

Arguments Ok {A} a.
Arguments Raise {A} e.

Definition bind {A B : Type} (m : result A) (k : A -> result B) : result B :=
  match m with
  | Ok a => k a
  | Raise e => Raise e
  end.

Notation "x <- m ;; k" := (bind m (fun x => k))
  (at level 61, m at next level, right associativity).

(** A 0-dimensional float tensor, as returned by [torch.mean]. *)
Inductive scalar : Type :=
| Real (x : R)
| NaN.

Definition tensor1 : Type := list R.
Definition tensor2 : Type := list (list R).

Definition rect (n : nat) (t : tensor2) : Prop :=
  Forall (fun row => length row = n) t.

(** ** Python lists and [torch.tensor] *)

(** [[x] * n] on a Python list: [n] copies of [x], none when [n <= 0]. *)
Definition list_repeat {A : Type} (x : A) (n : Z) : list A :=
  repeat x (Z.to_nat n).

(** [torch.tensor(l, dtype=torch.float32)] on a list of Python ints. *)
Definition torch_tensor (l : list Z) : tensor1 := map IZR l.

(** ** 1) Level encoder

<<
def label_to_levels(label, num_classes):
    levels = [1]*label + [0]*(num_classes - 1 - label)
    levels = torch.tensor(levels, dtype=torch.float32)
    return levels
>> *)
Definition label_to_levels (label num_classes : Z) : tensor1 :=
  let levels := list_repeat 1%Z label
                ++ list_repeat 0%Z (num_classes - 1 - label) in
  let levels := torch_tensor levels in
  levels.

(** The loop that encodes a batch of labels and [torch.stack]s the rows. *)
Definition levels_of_labels (class_labels : list Z) (num_classes : Z) : tensor2 :=
  map (fun label => label_to_levels label num_classes) class_labels.

(** ** Elementwise tensor operations with broadcasting *)

Fixpoint mapM {A B : Type} (f : A -> result B) (l : list A) : result (list B) :=
  match l with
  | [] => Ok []
  | x :: l' => y <- f x ;; ys <- mapM f l' ;; Ok (y :: ys)
  end.

(** Pairwise combination of two lists of the same length. *)
Fixpoint zipM {A B C : Type} (f : A -> B -> result C)
         (a : list A) (b : list B) : result (list C) :=
  match a, b with
  | x :: a', y :: b' => z <- f x y ;; zs <- zipM f a' b' ;; Ok (z :: zs)
  | _, _ => Ok []
  end.

(** One dimension of torch's broadcasting rule: sizes must be equal, or one
    of them is 1 and that entry is repeated; anything else raises. *)
Definition broadcast {A B C : Type} (f : A -> B -> result C)
           (a : list A) (b : list B) : result (list C) :=
  if Nat.eqb (length a) (length b) then zipM f a b
  else match a, b with
       | [x], _ => mapM (f x) b
       | _, [y] => mapM (fun x => f x y) a
       | _, _ => Raise RuntimeError
       end.

Definition ew1 (f : R -> R -> R) (a b : tensor1) : result tensor1 :=
  broadcast (fun x y => Ok (f x y)) a b.

Definition ew2 (f : R -> R -> R) (a b : tensor2) : result tensor2 :=
  broadcast (ew1 f) a b.

(** A 2-D tensor against a 1-D tensor: the 1-D tensor is aligned with the
    last dimension, i.e. it is a 2-D tensor with one row. *)
Definition ew21 (f : R -> R -> R) (a : tensor2) (b : tensor1) : result tensor2 :=
  ew2 f a [b].

Definition map2d (f : R -> R) (t : tensor2) : tensor2 := map (map f) t.

(** [torch.sum] of a 1-D tensor, and [torch.sum(t, dim=1)] of a 2-D one. *)
Definition rsum (l : list R) : R := fold_right Rplus 0 l.

Definition torch_sum_dim1 (t : tensor2) : tensor1 := map rsum t.

(** [torch.mean] of a 1-D tensor: [nan] on the empty tensor. *)
Definition torch_mean (v : tensor1) : scalar :=
  match v with
  | [] => NaN
  | _ :: _ => Real (rsum v / INR (length v))
  end.

(** ** torch primitives on one entry *)

(** [torch.sigmoid]: 1 / (1 + exp(-x)).  As a real number it lies strictly
    between 0 and 1 and is above one half exactly for [x > 0]; the float32
    result saturates instead (it is exactly 1.0 from about [x = 17] on and
    exactly 0.5 for tiny positive [x]), which this reading does not show. *)
Definition sigmoid (x : R) : R := 1 / (1 + exp (- x)).

(** [torch.log]: the natural logarithm. *)
Definition log (x : R) : R := ln x.

(** [F.logsigmoid]: the single primitive log(1 / (1 + exp(-x))); torch
    evaluates it as [min(x, 0) - log1p(exp(-|x|))].  As a real number it is
    strictly negative; the float32 result rounds to 0 for large [x], which
    this reading does not show. *)
Definition logsigmoid (x : R) : R := Rmin x 0 - ln (1 + exp (- Rabs x)).

(** ** 2) Rank loss

<<
def loss_fn1(logits, levels, imp):
    val =  -torch.sum((torch.log(torch.sigmoid(logits))*levels +
             torch.log(1 - torch.sigmoid(logits))*(1-levels))*imp,
           dim=1)
    return torch.mean(val)
>> *)
(** [loss_fn1_val] is the tensor bound to [val], one entry per example. *)
Definition loss_fn1_val (logits levels : tensor2) (imp : tensor1) : result tensor1 :=
  a <- ew2 Rmult (map2d log (map2d sigmoid logits)) levels ;;
  b <- ew2 Rmult (map2d log (map2d (fun p => 1 - p) (map2d sigmoid logits)))
                 (map2d (fun l => 1 - l) levels) ;;
  c <- ew2 Rplus a b ;;
  d <- ew21 Rmult c imp ;;
  Ok (map Ropp (torch_sum_dim1 d)).

Definition loss_fn1 (logits levels : tensor2) (imp : tensor1) : result scalar :=
  val <- loss_fn1_val logits levels imp ;;
  Ok (torch_mean val).

(**
<<
def loss_fn2(logits, levels, imp):
    val = (-torch.sum((F.logsigmoid(logits)*levels
                      + (F.logsigmoid(logits) - logits)*(1-levels))*imp,
           dim=1))
    return torch.mean(val)
>> *)
Definition loss_fn2_val (logits levels : tensor2) (imp : tensor1) : result tensor1 :=
  a <- ew2 Rmult (map2d logsigmoid logits) levels ;;
  ls_minus <- ew2 Rminus (map2d logsigmoid logits) logits ;;
  b <- ew2 Rmult ls_minus (map2d (fun l => 1 - l) levels) ;;
  c <- ew2 Rplus a b ;;
  d <- ew21 Rmult c imp ;;
  Ok (map Ropp (torch_sum_dim1 d)).

Definition loss_fn2 (logits levels : tensor2) (imp : tensor1) : result scalar :=
  val <- loss_fn2_val logits levels imp ;;
  Ok (torch_mean val).

(** ** 4) Rank decoder

<<
predict_levels = probas > 0.5
predicted_labels = torch.sum(predict_levels, dim=1)
>> *)

(** [x > 0.5] on one entry. *)
Definition gt_half (x : R) : bool :=
  if Rlt_dec (1 / 2) x then true else false.

Definition predict_levels (probas : tensor2) : list (list bool) :=
  map (map gt_half) probas.

(** [torch.sum] of a row of booleans: an integer. *)
Definition bsum (l : list bool) : Z :=
  fold_right (fun (b : bool) acc => ((if b then 1 else 0) + acc)%Z) 0%Z l.

Definition predicted_labels (probas : tensor2) : list Z :=
  map bsum (predict_levels probas).

(** ** The notebook's worked example *)

Definition NUM_CLASSES : Z := 5.

Definition class_labels : list Z := [2; 1; 4]%Z.

Definition importance_weights : tensor1 :=
  repeat 1 (Z.to_nat (NUM_CLASSES - 1)).

Definition example_logits : tensor2 :=
  [[ 2.1;  1.8; -2.1; -1.8];
   [ 1.9; -1;   -1.5; -1.3];
   [ 1.9;  1.8;  1.7;  1.6]].

Definition example_levels : tensor2 := levels_of_labels class_labels NUM_CLASSES.

(** ** Reference formulations used in the statements *)

(** Pairwise combination without broadcasting (shapes already agree). *)
Definition zipWith {A B C : Type} (f : A -> B -> C) (a : list A) (b : list B) : list C :=
  map (fun xy => f (fst xy) (snd xy)) (combine a b).

(** The contribution of threshold [i] of one example, as the contract of
    the rank loss writes it. *)
Definition contribution (w s v : R) : R :=
  w * (logsigmoid s * v + (logsigmoid s - s) * (1 - v)).

(** The same with the naive logarithms. *)
Definition contribution_naive (w s v : R) : R :=
  w * (log (sigmoid s) * v + log (1 - sigmoid s) * (1 - v)).

(** Sum of [c i] over the thresholds [i = 0 .. n-1]. *)
Definition sum_thresholds (n : nat) (c : nat -> R) : R :=
  rsum (map c (seq 0 n)).

(** Sum over the [n] thresholds of one example. *)
Definition example_sum (n : nat) (s v w : tensor1) : R :=
  sum_thresholds n (fun i => contribution (nth i w 0) (nth i s 0) (nth i v 0)).

(** Mean of [f e] over the examples [e = 0 .. B-1] of a batch. *)
Definition mean_over_batch (B : nat) (f : nat -> R) : R :=
  rsum (map f (seq 0 B)) / INR B.

(** [-mean_over_batch(sum_i c[i])]. *)
Definition rank_loss (n : nat) (s v : tensor2) (w : tensor1) : R :=
  - mean_over_batch (length s)
      (fun e => example_sum n (nth e s []) (nth e v []) w).


(** An outcome that is an exception. *)
Definition rejected {A : Type} (r : result A) : Prop :=
  exists e, r = Raise e.

(** All entries are 0 or 1. *)
Definition binary (t : tensor2) : Prop :=
  Forall (Forall (fun v => v = 0 \/ v = 1)) t.

(** ** Encoding a batch of labels

<<
levels = []
for label in class_labels:
    levels_from_label = label_to_levels(label, num_classes=NUM_CLASSES)
    levels.append(levels_from_label)

levels = torch.stack(levels)
>> *)

(** [torch.stack] of a list of 1-D tensors along a new first dimension: the
    list must not be empty and all tensors must have the size of the
    first. *)
Definition torch_stack (ts : list tensor1) : result tensor2 :=
  match ts with
  | [] => Raise RuntimeError
  | t :: ts' =>
      if forallb (fun r => Nat.eqb (length r) (length t)) ts'
      then Ok ts
      else Raise RuntimeError
  end.

Definition encode_labels (class_labels : list Z) (num_classes : Z) : result tensor2 :=
  let levels :=
    fold_left (fun levels label =>
                 let levels_from_label := label_to_levels label num_classes in
                 levels ++ [levels_from_label])
              class_labels [] in
  torch_stack levels.

(** ** 3) The CORAL layer

<<
self.fc = nn.Linear(input_size, 1, bias=False)
self.linear_1_bias = nn.Parameter(torch.zeros(self.num_classes-1).float())
...
logits = self.fc(x) + self.linear_1_bias
probas = torch.sigmoid(logits)
return logits, probas
>> *)

Definition dot (a b : tensor1) : R := rsum (zipWith Rmult a b).

(** The bias-free linear layer with one output unit, [weight] being its
    single weight row: one column holding [x . weight] per example.  A row
    whose size is not the layer's input size raises.  A batch with no rows
    has no row to check: its column count is not represented, so it is
    read as having the layer's input size. *)
Definition fc (weight : tensor1) (x : tensor2) : result tensor2 :=
  mapM (fun row =>
          if Nat.eqb (length row) (length weight)
          then Ok [dot row weight]
          else Raise RuntimeError) x.

Definition coral_layer (weight linear_1_bias : tensor1) (x : tensor2)
  : result (tensor2 * tensor2) :=
  out <- fc weight x ;;
  logits <- ew21 Rplus out linear_1_bias ;;
  let probas := map2d sigmoid logits in
  Ok (logits, probas).

(** [x > 0] on one entry. *)
Definition positive (x : R) : bool :=
  if Rlt_dec 0 x then true else false.

(** The size of the row that [label_to_levels] builds for any integers. *)
Definition row_size (label num_classes : Z) : nat :=
  (Z.to_nat label + Z.to_nat (num_classes - 1 - label))%nat.

(** * Properties *)

(** ** Lists *)

Lemma rsum_app (a b : list R) : rsum (a ++ b) = rsum a + rsum b.
Proof.
  induction a as [|x a IH]; simpl.
  - lra.
  - rewrite IH. lra.
Qed.

Lemma rsum_repeat (x : R) (n : nat) : rsum (repeat x n) = INR n * x.
Proof.
  induction n as [|n IH].
  - simpl. lra.
  - rewrite S_INR. simpl. rewrite IH. lra.
Qed.

Lemma rsum_map_opp (l : list R) : rsum (map Ropp l) = - rsum l.
Proof.
  induction l as [|x l IH]; simpl.
  - lra.
  - rewrite IH. lra.
Qed.


Lemma rsum_le_0 (l : list R) : Forall (fun x => x <= 0) l -> rsum l <= 0.
Proof.
  induction 1; simpl; lra.
Qed.

Lemma rsum_ge_0 (l : list R) : Forall (fun x => 0 <= x) l -> 0 <= rsum l.
Proof.
  induction 1; simpl; lra.
Qed.

Lemma nth_repeat_app (x y d : R) (n m i : nat) :
  (i < n + m)%nat ->
  nth i (repeat x n ++ repeat y m) d = if (i <? n)%nat then x else y.
Proof.
  intros Hi. destruct (Nat.ltb_spec i n) as [Hlt|Hge].
  - rewrite app_nth1 by (rewrite repeat_length; exact Hlt).
    apply nth_repeat_lt; exact Hlt.
  - rewrite app_nth2 by (rewrite repeat_length; exact Hge).
    rewrite repeat_length. apply nth_repeat_lt. lia.
Qed.

(** ** Level encoder *)

(** The encoder on any pair of integers: no input is refused. *)
Lemma label_to_levels_unfold (y K : Z) :
  label_to_levels y K
  = repeat 1 (Z.to_nat y) ++ repeat 0 (Z.to_nat (K - 1 - y)).
Proof.
  unfold label_to_levels, torch_tensor, list_repeat.
  rewrite map_app, !map_repeat. reflexivity.
Qed.

Lemma label_to_levels_length (y K : Z) :
  length (label_to_levels y K) = (Z.to_nat y + Z.to_nat (K - 1 - y))%nat.
Proof.
  rewrite label_to_levels_unfold, length_app, !repeat_length. reflexivity.
Qed.

Lemma label_to_levels_length_valid (y K : Z) :
  (0 <= y <= K - 1)%Z ->
  length (label_to_levels y K) = Z.to_nat (K - 1).
Proof.
  intros Hy. rewrite label_to_levels_length. lia.
Qed.

(** C3.  For [K >= 2] and [0 <= y <= K-1], [label_to_levels y K] has exactly
    [K-1] entries, and entry [i] (for [i = 0 .. K-2]) is 1 when [i < y] and
    0 otherwise. *)
Theorem label_to_levels_entries (y K : Z) :
  (2 <= K)%Z -> (0 <= y <= K - 1)%Z ->
  Z.of_nat (length (label_to_levels y K)) = (K - 1)%Z /\
  forall i : Z, (0 <= i <= K - 2)%Z ->
    nth (Z.to_nat i) (label_to_levels y K) 0 = if (i <? y)%Z then 1 else 0.
Proof.
  intros HK Hy. split.
  - rewrite label_to_levels_length_valid by exact Hy. lia.
  - intros i Hi. rewrite label_to_levels_unfold.
    rewrite nth_repeat_app by lia.
    destruct (Z.ltb_spec i y) as [Hlt|Hge];
      destruct (Nat.ltb_spec (Z.to_nat i) (Z.to_nat y)) as [Hlt'|Hge'];
      try reflexivity; lia.
Qed.

Lemma label_to_levels_entries_witness :
  Z.of_nat (length (label_to_levels 2 5)) = 4%Z /\
  forall i : Z, (0 <= i <= 3)%Z ->
    nth (Z.to_nat i) (label_to_levels 2 5) 0 = if (i <? 2)%Z then 1 else 0.
Proof.
  apply (label_to_levels_entries 2 5); lia.
Defined.

(** C4.  For [K >= 2] and [0 <= y <= K-1], [label_to_levels y K] has [K-1]
    entries, consists of ones followed by zeros (so it never increases from
    one index to a later one), and its entries sum to [y]; [y = 0] gives the
    all-zero vector and [y = K-1] the all-ones vector. *)
Theorem label_to_levels_invariants (y K : Z) :
  (2 <= K)%Z -> (0 <= y <= K - 1)%Z ->
  let v := label_to_levels y K in
  Z.of_nat (length v) = (K - 1)%Z /\
  (exists a b : nat, v = repeat 1 a ++ repeat 0 b) /\
  (forall i j : nat, (i <= j < length v)%nat -> nth j v 0 <= nth i v 0) /\
  rsum v = IZR y /\
  (y = 0%Z -> v = repeat 0 (Z.to_nat (K - 1))) /\
  (y = (K - 1)%Z -> v = repeat 1 (Z.to_nat (K - 1))).
Proof.
  intros HK Hy v. subst v. repeat split.
  - rewrite label_to_levels_length_valid by exact Hy. lia.
  - exists (Z.to_nat y), (Z.to_nat (K - 1 - y)). apply label_to_levels_unfold.
  - intros i j Hij. rewrite label_to_levels_length in Hij.
    rewrite label_to_levels_unfold, !nth_repeat_app by lia.
    destruct (Nat.ltb_spec j (Z.to_nat y)) as [Hj|Hj];
      destruct (Nat.ltb_spec i (Z.to_nat y)) as [Hi|Hi]; try lra; lia.
  - rewrite label_to_levels_unfold, rsum_app, !rsum_repeat.
    rewrite INR_IZR_INZ, Z2Nat.id by lia. lra.
  - intros ->. rewrite label_to_levels_unfold. simpl.
    f_equal. f_equal. lia.
  - intros ->. rewrite label_to_levels_unfold.
    replace (K - 1 - (K - 1))%Z with 0%Z by lia.
    simpl. apply app_nil_r.
Qed.

Lemma label_to_levels_invariants_witness :
  let v := label_to_levels 4 5 in
  Z.of_nat (length v) = 4%Z /\
  (exists a b : nat, v = repeat 1 a ++ repeat 0 b) /\
  (forall i j : nat, (i <= j < length v)%nat -> nth j v 0 <= nth i v 0) /\
  rsum v = 4 /\
  (4%Z = 0%Z -> v = repeat 0 (Z.to_nat 4)) /\
  (4%Z = 4%Z -> v = repeat 1 (Z.to_nat 4)).
Proof.
  apply (label_to_levels_invariants 4 5); lia.
Defined.

(** ** Rank decoder *)

Lemma gt_half_true (x : R) : gt_half x = true <-> 1 / 2 < x.
Proof.
  unfold gt_half. destruct (Rlt_dec (1 / 2) x) as [H|H]; split; intros H';
    try assumption; try reflexivity; try discriminate; contradiction.
Qed.

Lemma bsum_app (a b : list bool) : bsum (a ++ b) = (bsum a + bsum b)%Z.
Proof.
  induction a as [|x a IH]; simpl.
  - reflexivity.
  - rewrite IH. lia.
Qed.

Lemma bsum_repeat_true (n : nat) : bsum (repeat true n) = Z.of_nat n.
Proof.
  induction n as [|n IH].
  - reflexivity.
  - cbn [repeat bsum fold_right]. fold (bsum (repeat true n)). rewrite IH. lia.
Qed.

Lemma bsum_repeat_false (n : nat) : bsum (repeat false n) = 0%Z.
Proof.
  induction n as [|n IH].
  - reflexivity.
  - cbn [repeat bsum fold_right]. fold (bsum (repeat false n)). rewrite IH. lia.
Qed.

(** The indices of a row whose entry is strictly above one half. *)
Lemma bsum_counts_indices (p : list R) :
  bsum (map gt_half p)
  = Z.of_nat (length (filter (fun i => gt_half (nth i p 0)) (seq 0 (length p)))).
Proof.
  induction p as [|x p IH] using rev_ind.
  - reflexivity.
  - rewrite map_app, bsum_app, length_app, Nat.add_1_r, seq_S, filter_app.
    rewrite length_app, Nat2Z.inj_add. f_equal.
    + rewrite IH. do 2 f_equal. apply filter_ext_in.
      intros i Hi. apply in_seq in Hi. rewrite app_nth1 by lia. reflexivity.
    + cbn [seq Nat.add map filter bsum fold_right].
      rewrite nth_middle. destruct (gt_half x); reflexivity.
Qed.

Lemma predicted_labels_length (probas : tensor2) :
  length (predicted_labels probas) = length probas.
Proof.
  unfold predicted_labels, predict_levels. rewrite !length_map. reflexivity.
Qed.

Lemma predicted_labels_nth_error (probas : tensor2) (e : nat) (p : list R) :
  nth_error probas e = Some p ->
  nth_error (predicted_labels probas) e = Some (bsum (map gt_half p)).
Proof.
  intros H. unfold predicted_labels, predict_levels.
  rewrite map_map. rewrite nth_error_map, H. reflexivity.
Qed.

(** C5.  For a batch of probability rows with [K-1] entries each, the label
    predicted for a row [p] is the number of indices [i] with
    [p[i] > 0.5], the inequality being strict, and it lies in [0, K-1]. *)
Theorem predicted_labels_count (K : Z) (probas : tensor2) :
  (2 <= K)%Z -> rect (Z.to_nat (K - 1)) probas ->
  length (predicted_labels probas) = length probas /\
  forall (e : nat) (p : list R), nth_error probas e = Some p ->
    exists idx : list nat,
      NoDup idx /\
      (forall i : nat, In i idx <-> (i < length p)%nat /\ 1 / 2 < nth i p 0) /\
      nth_error (predicted_labels probas) e = Some (Z.of_nat (length idx)) /\
      (0 <= Z.of_nat (length idx) <= K - 1)%Z.
Proof.
  intros HK Hrect. split.
  - apply predicted_labels_length.
  - intros e p He.
    exists (filter (fun i => gt_half (nth i p 0)) (seq 0 (length p))).
    repeat split.
    + apply NoDup_filter, seq_NoDup.
    + apply filter_In in H. destruct H as [H _]. apply in_seq in H. lia.
    + apply filter_In in H. destruct H as [_ H]. apply gt_half_true, H.
    + intros [Hi Hp]. apply filter_In. split.
      * apply in_seq. lia.
      * apply gt_half_true, Hp.
    + rewrite (predicted_labels_nth_error _ _ _ He).
      rewrite bsum_counts_indices. reflexivity.
    + lia.
    + assert (Hlen : length p = Z.to_nat (K - 1)).
      { unfold rect in Hrect. rewrite Forall_forall in Hrect.
        apply Hrect. eapply nth_error_In, He. }
      pose proof (filter_length_le (fun i => gt_half (nth i p 0))
                    (seq 0 (length p))) as Hle.
      rewrite length_seq in Hle. lia.
Qed.

Lemma predicted_labels_count_witness :
  length (predicted_labels [[1 / 2; 3 / 4]]) = 1%nat /\
  forall (e : nat) (p : list R), nth_error [[1 / 2; 3 / 4]] e = Some p ->
    exists idx : list nat,
      NoDup idx /\
      (forall i : nat, In i idx <-> (i < length p)%nat /\ 1 / 2 < nth i p 0) /\
      nth_error (predicted_labels [[1 / 2; 3 / 4]]) e
        = Some (Z.of_nat (length idx)) /\
      (0 <= Z.of_nat (length idx) <= 3 - 1)%Z.
Proof.
  apply (predicted_labels_count 3 [[1 / 2; 3 / 4]]).
  - lia.
  - repeat constructor.
Defined.

(** An entry equal to one half is not counted; one above it is. *)
Lemma predicted_labels_half : predicted_labels [[1 / 2; 3 / 4; 1 / 2]] = [1%Z].
Proof.
  unfold predicted_labels, predict_levels. cbn [map].
  replace (gt_half (1 / 2)) with false
    by (symmetry; apply not_true_is_false; rewrite gt_half_true; lra).
  replace (gt_half (3 / 4)) with true
    by (symmetry; apply gt_half_true; lra).
  reflexivity.
Qed.

(** ** Round trip *)

Lemma gt_half_1 : gt_half 1 = true.
Proof. apply gt_half_true. lra. Qed.

Lemma gt_half_0 : gt_half 0 = false.
Proof. apply not_true_is_false. rewrite gt_half_true. lra. Qed.

Lemma decode_label_to_levels (y K : Z) :
  (0 <= y)%Z -> bsum (map gt_half (label_to_levels y K)) = y.
Proof.
  intros Hy. rewrite label_to_levels_unfold, map_app, !map_repeat.
  rewrite gt_half_1, gt_half_0, bsum_app.
  rewrite bsum_repeat_true, bsum_repeat_false. lia.
Qed.

(** C6.  Round trip: for [K >= 2] and [0 <= y <= K-1], the rank decoder
    applied to the row [label_to_levels y K], read as probabilities, returns
    [y]; the same holds row by row for an encoded batch of labels. *)
Theorem decode_encode_roundtrip (K : Z) :
  (2 <= K)%Z ->
  (forall y : Z, (0 <= y <= K - 1)%Z ->
     predicted_labels [label_to_levels y K] = [y]) /\
  (forall ys : list Z, Forall (fun y => 0 <= y <= K - 1)%Z ys ->
     predicted_labels (levels_of_labels ys K) = ys).
Proof.
  intros HK. split.
  - intros y Hy. unfold predicted_labels, predict_levels. cbn [map].
    rewrite decode_label_to_levels by lia. reflexivity.
  - intros ys Hys. unfold predicted_labels, predict_levels, levels_of_labels.
    rewrite !map_map.
    induction Hys as [|y ys Hy _ IH]; cbn [map].
    + reflexivity.
    + rewrite decode_label_to_levels by lia. rewrite IH. reflexivity.
Qed.

Lemma decode_encode_roundtrip_witness :
  (forall y : Z, (0 <= y <= 5 - 1)%Z ->
     predicted_labels [label_to_levels y 5] = [y]) /\
  (forall ys : list Z, Forall (fun y => 0 <= y <= 5 - 1)%Z ys ->
     predicted_labels (levels_of_labels ys 5) = ys).
Proof.
  apply (decode_encode_roundtrip 5). lia.
Defined.

(** ** Broadcasting on tensors whose shapes agree *)

Lemma length_zipWith {A B C : Type} (f : A -> B -> C) (a : list A) (b : list B) :
  length (zipWith f a b) = Nat.min (length a) (length b).
Proof.
  unfold zipWith. rewrite length_map, length_combine. reflexivity.
Qed.

Lemma nth_zipWith {A B C : Type} (f : A -> B -> C) (a : list A) (b : list B)
      (i : nat) (da : A) (db : B) (d : C) :
  (i < length a)%nat -> (i < length b)%nat ->
  nth i (zipWith f a b) d = f (nth i a da) (nth i b db).
Proof.
  revert b i. induction a as [|x a IH]; intros [|y b] i Ha Hb;
    simpl in Ha, Hb; try lia.
  destruct i as [|i].
  - reflexivity.
  - cbn. apply IH; lia.
Qed.

Lemma nth_map_lt {A B : Type} (f : A -> B) (l : list A) (i : nat) (d : B) (d' : A) :
  (i < length l)%nat -> nth i (map f l) d = f (nth i l d').
Proof.
  intros Hi. rewrite (nth_indep _ d (f d')) by (rewrite length_map; exact Hi).
  apply map_nth.
Qed.

Lemma zipWith_map_self {A B : Type} (h : A -> A -> B) (f : A -> A) (l : list A) :
  zipWith h (map f l) l = map (fun x => h (f x) x) l.
Proof.
  induction l as [|x l IH].
  - reflexivity.
  - unfold zipWith in *. cbn. rewrite IH. reflexivity.
Qed.

Lemma mapM_ok {A B : Type} (f : A -> result B) (g : A -> B) (l : list A) :
  (forall x, In x l -> f x = Ok (g x)) -> mapM f l = Ok (map g l).
Proof.
  induction l as [|x l IH]; intros H.
  - reflexivity.
  - cbn. rewrite (H x) by (left; reflexivity). cbn.
    rewrite IH by (intros z Hz; apply H; right; exact Hz). reflexivity.
Qed.

Lemma zipM_ok {A B C : Type} (f : A -> B -> result C) (g : A -> B -> C)
      (a : list A) (b : list B) :
  (forall x y, In (x, y) (combine a b) -> f x y = Ok (g x y)) ->
  zipM f a b = Ok (zipWith g a b).
Proof.
  revert b. induction a as [|x a IH]; intros [|y b] H; try reflexivity.
  cbn. rewrite (H x y) by (left; reflexivity). cbn.
  rewrite (IH b) by (intros x' y' Hin; apply H; right; exact Hin).
  reflexivity.
Qed.

Lemma ew1_same (f : R -> R -> R) (a b : tensor1) :
  length a = length b -> ew1 f a b = Ok (zipWith f a b).
Proof.
  intros Hlen. unfold ew1, broadcast.
  rewrite (proj2 (Nat.eqb_eq _ _) Hlen).
  apply zipM_ok. reflexivity.
Qed.

Lemma ew2_rows (f : R -> R -> R) (a b : tensor2) :
  length a = length b ->
  (forall x y, In (x, y) (combine a b) -> length x = length y) ->
  ew2 f a b = Ok (zipWith (zipWith f) a b).
Proof.
  intros Hlen Hrows. unfold ew2, broadcast, tensor2, tensor1 in *.
  rewrite (proj2 (Nat.eqb_eq _ _) Hlen).
  apply zipM_ok. intros x y Hin. apply ew1_same, Hrows, Hin.
Qed.

Lemma ew2_same (f : R -> R -> R) (n : nat) (a b : tensor2) :
  length a = length b -> rect n a -> rect n b ->
  ew2 f a b = Ok (zipWith (zipWith f) a b).
Proof.
  intros Hlen Ha Hb. apply ew2_rows; [exact Hlen|].
  intros x y Hin. unfold rect in *. rewrite Forall_forall in Ha, Hb.
  rewrite (Ha x) by (eapply in_combine_l, Hin).
  rewrite (Hb y) by (eapply in_combine_r, Hin). reflexivity.
Qed.

Lemma in_combine_map_self {A : Type} (g : A -> A) (l : list A) (x y : A) :
  In (x, y) (combine (map g l) l) -> x = g y.
Proof.
  induction l as [|z l IH]; cbn; intros H.
  - contradiction.
  - destruct H as [H|H].
    + inversion H. reflexivity.
    + apply IH, H.
Qed.

(** A tensor combined with an entrywise image of itself never fails. *)
Lemma ew2_map_self (h : R -> R -> R) (f : R -> R) (t : tensor2) :
  ew2 h (map2d f t) t = Ok (map2d (fun x => h (f x) x) t).
Proof.
  unfold map2d. rewrite ew2_rows.
  - rewrite (zipWith_map_self (zipWith h) (map f)).
    apply f_equal, map_ext. intros row. apply zipWith_map_self.
  - apply length_map.
  - intros x y Hin. apply (in_combine_map_self (map f)) in Hin. subst x.
    apply length_map.
Qed.

Lemma ew21_same (f : R -> R -> R) (n : nat) (c : tensor2) (imp : tensor1) :
  rect n c -> length imp = n ->
  ew21 f c imp = Ok (map (fun row => zipWith f row imp) c).
Proof.
  intros Hc Himp.
  assert (Hrow : forall row, In row c -> ew1 f row imp = Ok (zipWith f row imp)).
  { intros row Hin. apply ew1_same. unfold rect in Hc.
    rewrite Forall_forall in Hc. rewrite (Hc row Hin). symmetry. exact Himp. }
  unfold ew21, ew2, broadcast.
  destruct c as [|r [|r' c']].
  - reflexivity.
  - cbn. rewrite (Hrow r) by (left; reflexivity). reflexivity.
  - cbn [length Nat.eqb].
    apply (mapM_ok (fun x => ew1 f x imp) (fun row => zipWith f row imp)).
    exact Hrow.
Qed.

Lemma rect_map2d (f : R -> R) (n : nat) (t : tensor2) :
  rect n t -> rect n (map2d f t).
Proof.
  unfold rect, map2d. intros H. rewrite Forall_map.
  eapply Forall_impl; [|exact H]. cbn. intros row Hr.
  rewrite length_map. exact Hr.
Qed.

Lemma rect_zipWith (f : R -> R -> R) (n : nat) (a b : tensor2) :
  rect n a -> rect n b -> rect n (zipWith (zipWith f) a b).
Proof.
  unfold rect. rewrite !Forall_forall. intros Ha Hb row Hin.
  unfold zipWith at 1 in Hin. apply in_map_iff in Hin.
  destruct Hin as [[x y] [<- Hin]]. cbn [fst snd].
  rewrite length_zipWith, (Ha x), (Hb y).
  - apply Nat.min_id.
  - eapply in_combine_r, Hin.
  - eapply in_combine_l, Hin.
Qed.

Lemma rect_nth (n : nat) (t : tensor2) (e : nat) :
  rect n t -> (e < length t)%nat -> length (nth e t []) = n.
Proof.
  unfold rect. rewrite Forall_forall. intros H He. apply H, nth_In, He.
Qed.

(** ** The primitives [sigmoid], [log] and [logsigmoid] *)

Lemma one_plus_exp_pos (x : R) : 0 < 1 + exp x.
Proof. pose proof (exp_pos x). lra. Qed.

Lemma sigmoid_alt (x : R) : sigmoid x = / (1 + exp (- x)).
Proof. unfold sigmoid. lra. Qed.

Lemma sigmoid_bounds (x : R) : 0 < sigmoid x < 1.
Proof.
  rewrite sigmoid_alt. pose proof (exp_pos (- x)) as He. split.
  - apply Rinv_0_lt_compat. lra.
  - rewrite <- Rinv_1 at 2. apply Rinv_lt_contravar; lra.
Qed.

(** The evaluation scheme of [F.logsigmoid] is the negated softplus. *)
Lemma logsigmoid_softplus (x : R) : logsigmoid x = - ln (1 + exp (- x)).
Proof.
  unfold logsigmoid. destruct (Rle_dec 0 x) as [Hx|Hx].
  - rewrite Rmin_right, Rabs_right by lra. lra.
  - rewrite Rmin_left, Rabs_left by lra. rewrite Ropp_involutive.
    replace (1 + exp (- x)) with (exp (- x) * (1 + exp x)).
    + rewrite ln_mult by (apply exp_pos || apply one_plus_exp_pos).
      rewrite ln_exp. lra.
    + rewrite Rmult_plus_distr_l, <- exp_plus.
      replace (- x + x) with 0 by lra. rewrite exp_0. lra.
Qed.

(** [F.logsigmoid] is log(sigmoid). *)
Lemma logsigmoid_log_sigmoid (x : R) : logsigmoid x = log (sigmoid x).
Proof.
  rewrite logsigmoid_softplus. unfold log. rewrite sigmoid_alt.
  rewrite ln_Rinv by apply one_plus_exp_pos. reflexivity.
Qed.

Lemma one_minus_sigmoid (x : R) : 1 - sigmoid x = exp (- x) * / (1 + exp (- x)).
Proof.
  rewrite sigmoid_alt. pose proof (one_plus_exp_pos (- x)) as Hp.
  field. lra.
Qed.

(** The identity behind the stable rewrite. *)
Lemma logsigmoid_minus (x : R) : logsigmoid x - x = log (1 - sigmoid x).
Proof.
  unfold log. rewrite one_minus_sigmoid.
  pose proof (one_plus_exp_pos (- x)) as Hp.
  rewrite ln_mult by (apply exp_pos || (apply Rinv_0_lt_compat; exact Hp)).
  rewrite ln_exp, ln_Rinv by exact Hp.
  rewrite logsigmoid_softplus. lra.
Qed.

Lemma ln_one_plus_exp_pos (x : R) : 0 < ln (1 + exp x).
Proof.
  rewrite <- ln_1. apply ln_increasing; pose proof (exp_pos x); lra.
Qed.

Lemma logsigmoid_neg (x : R) : logsigmoid x < 0.
Proof.
  rewrite logsigmoid_softplus. pose proof (ln_one_plus_exp_pos (- x)). lra.
Qed.

Lemma logsigmoid_minus_softplus (x : R) : logsigmoid x - x = - ln (1 + exp x).
Proof.
  rewrite logsigmoid_softplus.
  replace (1 + exp (- x)) with (exp (- x) * (1 + exp x)).
  - rewrite ln_mult by (apply exp_pos || apply one_plus_exp_pos).
    rewrite ln_exp. lra.
  - rewrite Rmult_plus_distr_l, <- exp_plus.
    replace (- x + x) with 0 by lra. rewrite exp_0. lra.
Qed.

Lemma logsigmoid_minus_neg (x : R) : logsigmoid x - x < 0.
Proof.
  rewrite logsigmoid_minus_softplus. pose proof (ln_one_plus_exp_pos x). lra.
Qed.

Lemma contribution_naive_eq (w s v : R) :
  contribution_naive w s v = contribution w s v.
Proof.
  unfold contribution_naive, contribution.
  rewrite <- logsigmoid_log_sigmoid, <- logsigmoid_minus. reflexivity.
Qed.

Lemma contribution_nonpos (w s v : R) :
  0 <= w -> v = 0 \/ v = 1 -> contribution w s v <= 0.
Proof.
  intros Hw Hv. unfold contribution.
  pose proof (logsigmoid_neg s) as H1.
  pose proof (logsigmoid_minus_neg s) as H2.
  destruct Hv as [-> | ->]; nra.
Qed.

(** ** The two losses *)

Lemma map2d_map2d (f g : R -> R) (t : tensor2) :
  map2d f (map2d g t) = map2d (fun x => f (g x)) t.
Proof.
  unfold map2d. rewrite map_map. apply map_ext. intros row. apply map_map.
Qed.

Lemma map2d_ext (f g : R -> R) (t : tensor2) :
  (forall x, f x = g x) -> map2d f t = map2d g t.
Proof.
  intros H. unfold map2d. apply map_ext. intros row. apply map_ext, H.
Qed.

Lemma map2d_length (f : R -> R) (t : tensor2) : length (map2d f t) = length t.
Proof. apply length_map. Qed.

(** The per-example tensors [val] of the two losses coincide on every
    input, also when a broadcast is involved or fails. *)
Lemma loss_fn1_val_eq_loss_fn2_val (logits levels : tensor2) (imp : tensor1) :
  loss_fn1_val logits levels imp = loss_fn2_val logits levels imp.
Proof.
  unfold loss_fn1_val, loss_fn2_val.
  rewrite ew2_map_self. cbn [bind].
  rewrite !map2d_map2d.
  rewrite (map2d_ext (fun x => log (sigmoid x)) logsigmoid)
    by (intros x; symmetry; apply logsigmoid_log_sigmoid).
  rewrite (map2d_ext (fun x => log (1 - sigmoid x)) (fun x => logsigmoid x - x))
    by (intros x; symmetry; apply logsigmoid_minus).
  reflexivity.
Qed.

(** One row of the stable loss before the sum over the thresholds. *)
Lemma row_terms_sum (n : nat) (s v imp : tensor1) :
  length s = n -> length v = n -> length imp = n ->
  rsum (zipWith Rmult
          (zipWith Rplus
             (zipWith Rmult (map logsigmoid s) v)
             (zipWith Rmult (map (fun x => logsigmoid x - x) s)
                            (map (fun l => 1 - l) v)))
          imp)
  = example_sum n s v imp.
Proof.
  intros Hs Hv Hw. unfold example_sum, sum_thresholds. f_equal.
  apply (nth_ext _ _ 0 0).
  - rewrite !length_zipWith, !length_map, length_seq. lia.
  - rewrite !length_zipWith, !length_map. intros i Hi.
    rewrite (nth_zipWith _ _ _ _ 0 0) by (rewrite ?length_zipWith, ?length_map; lia).
    rewrite (nth_zipWith _ _ _ _ 0 0) by (rewrite ?length_zipWith, ?length_map; lia).
    rewrite !(nth_zipWith _ _ _ _ 0 0) by (rewrite ?length_map; lia).
    rewrite !(nth_map_lt _ _ _ _ 0) by lia.
    rewrite (nth_map_lt _ _ _ _ 0%nat) by (rewrite length_seq; lia).
    rewrite seq_nth by lia. cbn [Nat.add].
    unfold contribution. ring.
Qed.

(** On tensors of matching shapes [val] holds, for each example, the
    negated sum of its [n] weighted contributions. *)
Lemma loss_fn2_val_shapes (n : nat) (logits levels : tensor2) (imp : tensor1) :
  length logits = length levels -> rect n logits -> rect n levels ->
  length imp = n ->
  loss_fn2_val logits levels imp
  = Ok (map (fun e => - example_sum n (nth e logits []) (nth e levels []) imp)
            (seq 0 (length logits))).
Proof.
  intros Hlen Hs Hv Hw. unfold loss_fn2_val.
  rewrite (ew2_same Rmult n)
    by (rewrite ?map2d_length; auto using rect_map2d).
  cbn [bind]. rewrite ew2_map_self. cbn [bind].
  rewrite (ew2_same Rmult n)
    by (rewrite ?map2d_length; auto using rect_map2d).
  cbn [bind].
  rewrite (ew2_same Rplus n)
    by (rewrite ?length_zipWith, ?map2d_length;
        auto using rect_zipWith, rect_map2d).
  cbn [bind].
  rewrite (ew21_same Rmult n) by auto using rect_zipWith, rect_map2d.
  cbn [bind]. f_equal. unfold torch_sum_dim1.
  apply (nth_ext _ _ 0 0).
  - rewrite !length_map, !length_zipWith, !map2d_length, length_seq. lia.
  - rewrite !length_map, !length_zipWith, !map2d_length.
    intros e He. assert (He' : (e < length logits)%nat) by lia.
    assert (He'' : (e < length levels)%nat) by lia.
    rewrite (nth_map_lt Ropp _ _ _ 0)
      by (rewrite !length_map, !length_zipWith, !map2d_length; lia).
    rewrite (nth_map_lt rsum _ _ _ [])
      by (rewrite !length_map, !length_zipWith, !map2d_length; lia).
    rewrite (nth_map_lt _ _ _ _ [])
      by (rewrite !length_zipWith, !map2d_length; lia).
    rewrite (nth_zipWith _ _ _ _ [] [])
      by (rewrite !length_zipWith, !map2d_length; lia).
    rewrite !(nth_zipWith _ _ _ _ [] []) by (rewrite ?map2d_length; lia).
    unfold map2d. rewrite !(nth_map_lt _ _ _ _ []) by lia.
    rewrite (row_terms_sum n)
      by (exact Hw || (apply rect_nth; assumption || lia)).
    rewrite (nth_map_lt _ _ _ _ 0%nat) by (rewrite length_seq; lia).
    rewrite seq_nth by lia. reflexivity.
Qed.

Lemma torch_mean_real (v : tensor1) :
  v <> [] -> torch_mean v = Real (rsum v / INR (length v)).
Proof.
  destruct v as [|x v]; [contradiction | reflexivity].
Qed.

Lemma loss_fn2_shapes (n : nat) (logits levels : tensor2) (imp : tensor1) :
  logits <> [] ->
  length logits = length levels -> rect n logits -> rect n levels ->
  length imp = n ->
  loss_fn2 logits levels imp = Ok (Real (rank_loss n logits levels imp)).
Proof.
  intros Hne Hlen Hs Hv Hw. unfold loss_fn2.
  rewrite (loss_fn2_val_shapes n) by assumption. cbn [bind].
  rewrite torch_mean_real.
  - unfold rank_loss, mean_over_batch.
    rewrite length_map, length_seq.
    rewrite <- (map_map (fun e => example_sum n (nth e logits [])
                                    (nth e levels []) imp) Ropp).
    rewrite rsum_map_opp. do 2 f_equal.
    unfold Rdiv. ring.
  - intros Hnil. apply (f_equal (@length R)) in Hnil.
    rewrite length_map, length_seq in Hnil.
    destruct logits; [contradiction | discriminate].
Qed.

(** The two losses are one function of exact real arithmetic.  This is an
    identity of the real-number reading only: evaluated in float32 the naive
    form loses the digits of [1 - sigmoid(x)] and differs from the stable
    one for logits of large magnitude. *)
Lemma loss_fn1_eq_loss_fn2 (logits levels : tensor2) (imp : tensor1) :
  loss_fn1 logits levels imp = loss_fn2 logits levels imp.
Proof.
  unfold loss_fn1, loss_fn2. rewrite loss_fn1_val_eq_loss_fn2_val. reflexivity.
Qed.

(** C1.  On a non-empty batch of score rows and threshold rows with [n]
    entries each and a weight vector with [n] entries, [loss_fn2] returns the
    negated mean over the batch of the sum over the [n] thresholds of
    [w[i] * (logsigmoid(s[i]) * v[i] + (logsigmoid(s[i]) - s[i]) * (1 - v[i]))]. *)
Theorem loss_fn2_formula (n : nat) (s v : tensor2) (w : tensor1) :
  s <> [] -> length s = length v -> rect n s -> rect n v -> length w = n ->
  loss_fn2 s v w
  = Ok (Real
      (- mean_over_batch (length s) (fun e =>
           sum_thresholds n (fun i =>
             let s_i := nth i (nth e s []) 0 in
             let v_i := nth i (nth e v []) 0 in
             nth i w 0 * (logsigmoid s_i * v_i
                          + (logsigmoid s_i - s_i) * (1 - v_i)))))).
Proof.
  intros Hne Hlen Hs Hv Hw.
  rewrite (loss_fn2_shapes n) by assumption. reflexivity.
Qed.

Lemma loss_fn2_formula_witness :
  loss_fn2 [[2; -1]; [0; 3]] [[1; 0]; [1; 1]] [1; 1]
  = Ok (Real
      (- mean_over_batch 2 (fun e =>
           sum_thresholds 2 (fun i =>
             let s_i := nth i (nth e [[2; -1]; [0; 3]] []) 0 in
             let v_i := nth i (nth e [[1; 0]; [1; 1]] []) 0 in
             nth i [1; 1] 0 * (logsigmoid s_i * v_i
                               + (logsigmoid s_i - s_i) * (1 - v_i)))))).
Proof.
  apply (loss_fn2_formula 2 [[2; -1]; [0; 3]] [[1; 0]; [1; 1]] [1; 1]).
  - discriminate.
  - reflexivity.
  - repeat constructor.
  - repeat constructor.
  - reflexivity.
Defined.

(** The mean of an empty batch is not a number. *)
Lemma loss_fn2_empty_batch (imp : tensor1) : loss_fn2 [] [] imp = Ok NaN.
Proof. reflexivity. Qed.

(** ** Sign of the loss *)

Lemma example_sum_nonpos (n : nat) (s v w : tensor1) :
  length v = n -> length w = n ->
  Forall (fun x => x = 0 \/ x = 1) v -> Forall (fun x => 0 <= x) w ->
  example_sum n s v w <= 0.
Proof.
  intros Hv Hw Hbin Hpos. unfold example_sum, sum_thresholds.
  apply rsum_le_0. rewrite Forall_map, Forall_forall.
  intros i Hi. apply in_seq in Hi.
  apply contribution_nonpos.
  - rewrite Forall_forall in Hpos. apply Hpos, nth_In. lia.
  - rewrite Forall_forall in Hbin. apply Hbin, nth_In. lia.
Qed.

(** C10.  On a non-empty batch of matching shapes, with levels in {0,1} and
    non-negative importance weights, [loss_fn2] returns a non-negative
    number: [logsigmoid x] and [logsigmoid x - x] are negative for every
    real [x], so every weighted contribution is at most 0 before the
    negation. *)
Theorem loss_fn2_nonnegative (n : nat) (s v : tensor2) (w : tensor1) :
  s <> [] -> length s = length v -> rect n s -> rect n v -> length w = n ->
  binary v -> Forall (fun x => 0 <= x) w ->
  (exists x : R, loss_fn2 s v w = Ok (Real x) /\ 0 <= x) /\
  (forall x : R, logsigmoid x < 0 /\ logsigmoid x - x < 0).
Proof.
  intros Hne Hlen Hs Hv Hw Hbin Hpos. split.
  - exists (rank_loss n s v w). split.
    + apply (loss_fn2_shapes n); assumption.
    + unfold rank_loss, mean_over_batch.
      assert (HB : 0 < INR (length s)).
      { apply lt_0_INR. destruct s; [contradiction | cbn; lia]. }
      assert (Hsum : rsum (map (fun e => example_sum n (nth e s []) (nth e v []) w)
                               (seq 0 (length s))) <= 0).
      { apply rsum_le_0. rewrite Forall_map, Forall_forall.
        intros e He. apply in_seq in He.
        apply example_sum_nonpos; try assumption.
        - apply rect_nth; [assumption | lia].
        - unfold binary in Hbin. rewrite Forall_forall in Hbin.
          apply Hbin, nth_In. lia. }
      apply Rinv_0_lt_compat in HB. unfold Rdiv. nra.
  - intros x. split; [apply logsigmoid_neg | apply logsigmoid_minus_neg].
Qed.

Lemma loss_fn2_nonnegative_witness :
  (exists x : R, loss_fn2 [[2; -1]] [[1; 0]] [1; 3] = Ok (Real x) /\ 0 <= x) /\
  (forall x : R, logsigmoid x < 0 /\ logsigmoid x - x < 0).
Proof.
  apply (loss_fn2_nonnegative 2 [[2; -1]] [[1; 0]] [1; 3]).
  - discriminate.
  - reflexivity.
  - repeat constructor.
  - repeat constructor.
  - reflexivity.
  - repeat constructor; (left; reflexivity) || (right; reflexivity).
  - repeat constructor; lra.
Defined.

(** ** Reordering the examples of a batch *)













(** ** What is refused and what is not *)

Lemma not_rejected_ok {A : Type} (a : A) : ~ rejected (Ok a).
Proof. intros [e He]. discriminate. Qed.











(** ** Numeric bounds on [exp] *)

Lemma exp_term_nonneg (x : R) (k : nat) : 0 <= x -> 0 <= / INR (fact k) * x ^ k.
Proof.
  intros Hx. apply Rmult_le_pos.
  - left. apply Rinv_0_lt_compat, INR_fact_lt_0.
  - apply pow_le, Hx.
Qed.

(** For [0 <= x <= 1] each term of the exponential series after the first
    is at most half of the one before. *)
Lemma exp_term_halves (x : R) (k : nat) :
  0 <= x <= 1 -> (1 <= k)%nat ->
  2 * (/ INR (fact (S k)) * x ^ S k) <= / INR (fact k) * x ^ k.
Proof.
  intros Hx Hk.
  rewrite fact_simpl, mult_INR.
  pose proof (INR_fact_lt_0 k) as Hf.
  assert (Hk2 : 2 <= INR (S k)).
  { change 2 with (INR 2). apply le_INR. lia. }
  rewrite Rinv_mult. cbn [pow].
  pose proof (exp_term_nonneg x k (proj1 Hx)) as Ht.
  assert (Hinv : 0 < / INR (S k) <= / 2).
  { split; [apply Rinv_0_lt_compat; lra | apply Rinv_le_contravar; lra]. }
  set (t := / INR (fact k) * x ^ k) in *.
  replace (2 * (/ INR (S k) * / INR (fact k) * (x * x ^ k)))
    with (2 * / INR (S k) * x * t) by (unfold t; ring).
  assert (H1 : 2 * / INR (S k) * x <= 1) by nra.
  nra.
Qed.

Lemma E1_tail_invariant (x : R) (n N : nat) :
  0 <= x <= 1 -> (1 <= n <= N)%nat ->
  E1 x N + / INR (fact N) * x ^ N <= E1 x n + / INR (fact n) * x ^ n.
Proof.
  intros Hx [Hn HN]. induction HN as [|N HN IH].
  - lra.
  - unfold E1 in *. rewrite tech5.
    pose proof (exp_term_halves x N Hx ltac:(lia)). lra.
Qed.

Lemma E1_growing (x : R) : 0 <= x -> Un_growing (E1 x).
Proof.
  intros Hx n. unfold E1. rewrite tech5.
  pose proof (exp_term_nonneg x (S n) Hx). lra.
Qed.

(** The partial sum of order [n] bounds [exp x] from below, and misses it
    by at most its last term. *)
Lemma exp_taylor_bounds (x : R) (n : nat) :
  0 <= x <= 1 -> (1 <= n)%nat ->
  E1 x n <= exp x <= E1 x n + / INR (fact n) * x ^ n.
Proof.
  intros Hx Hn. split.
  - apply (growing_ineq (E1 x)); [apply E1_growing, Hx | apply E1_cvg].
  - destruct (Rle_dec (exp x) (E1 x n + / INR (fact n) * x ^ n)) as [H|H];
      [exact H|]. exfalso.
    apply Rnot_le_lt in H.
    destruct (E1_cvg x (exp x - (E1 x n + / INR (fact n) * x ^ n))
                ltac:(lra)) as [N0 HN0].
    specialize (HN0 (Nat.max N0 n) ltac:(lia)).
    pose proof (E1_tail_invariant x n (Nat.max N0 n) Hx ltac:(lia)) as Hinv.
    pose proof (exp_term_nonneg x (Nat.max N0 n) (proj1 Hx)) as Ht.
    unfold Rdist in HN0. apply Rabs_def2 in HN0. lra.
Qed.

Lemma INR_fact_6 : INR (fact 6) = 720.
Proof. rewrite INR_IZR_INZ. reflexivity. Qed.

Lemma E1_6 (x : R) :
  E1 x 6 = 1 + x + x^2/2 + x^3/6 + x^4/24 + x^5/120 + x^6/720.
Proof.
  unfold E1. cbn [sum_f_R0].
  rewrite !INR_IZR_INZ.
  replace (Z.of_nat (fact 0)) with 1%Z by reflexivity.
  replace (Z.of_nat (fact 1)) with 1%Z by reflexivity.
  replace (Z.of_nat (fact 2)) with 2%Z by reflexivity.
  replace (Z.of_nat (fact 3)) with 6%Z by reflexivity.
  replace (Z.of_nat (fact 4)) with 24%Z by reflexivity.
  replace (Z.of_nat (fact 5)) with 120%Z by reflexivity.
  replace (Z.of_nat (fact 6)) with 720%Z by reflexivity.
  field.
Qed.

(** Interval arithmetic on positive reals. *)
Lemma Rmult_bounds (lx ux ly uy l u x y : R) :
  lx < x < ux -> ly < y < uy -> 0 <= lx -> 0 <= ly ->
  l <= lx * ly -> ux * uy <= u -> l < x * y < u.
Proof. intros Hx Hy Hlx Hly Hl Hu. split; nra. Qed.

Lemma Rinv_bounds (lx ux l u x : R) :
  lx < x < ux -> 0 < lx -> l * ux <= 1 -> 1 <= u * lx -> l < / x < u.
Proof.
  intros [Hx1 Hx2] Hlx Hl Hu.
  assert (Hx : 0 < x) by lra.
  pose proof (Rinv_0_lt_compat x Hx) as Hi.
  assert (Hxi : x * / x = 1) by (apply Rinv_r; lra).
  split; nra.
Qed.

(** [exp 0.1] from the partial sum of order 6, then [exp (- a)] for the
    magnitudes [a] of the reference logits, by products. *)
Lemma exp_tenth : 1.1051709179 < exp 0.1 < 1.1051709196.
Proof.
  pose proof (exp_taylor_bounds 0.1 6 ltac:(lra) ltac:(lia)) as H.
  rewrite E1_6, INR_fact_6 in H. lra.
Qed.

Lemma exp_neg_01 : 0.9048374166 < exp (- (0.1)) < 0.9048374183.
Proof.
  rewrite exp_Ropp. apply Rinv_bounds with (1 := exp_tenth); lra.
Qed.

Lemma exp_neg_02 : 0.8187307503 < exp (- (0.2)) < 0.8187307537.
Proof.
  replace (- (0.2)) with (- (0.1) + - (0.1)) by lra. rewrite exp_plus.
  apply Rmult_bounds with (1 := exp_neg_01) (2 := exp_neg_01); lra.
Qed.

Lemma exp_neg_03 : 0.7408182168 < exp (- (0.3)) < 0.7408182216.
Proof.
  replace (- (0.3)) with (- (0.2) + - (0.1)) by lra. rewrite exp_plus.
  apply Rmult_bounds with (1 := exp_neg_02) (2 := exp_neg_01); lra.
Qed.

Lemma exp_neg_05 : 0.6065306543 < exp (- (0.5)) < 0.6065306611.
Proof.
  replace (- (0.5)) with (- (0.3) + - (0.2)) by lra. rewrite exp_plus.
  apply Rmult_bounds with (1 := exp_neg_03) (2 := exp_neg_02); lra.
Qed.

Lemma exp_neg_10 : 0.3678794345 < exp (- (1)) < 0.367879443.
Proof.
  replace (- (1)) with (- (0.5) + - (0.5)) by lra. rewrite exp_plus.
  apply Rmult_bounds with (1 := exp_neg_05) (2 := exp_neg_05); lra.
Qed.

Lemma exp_neg_13 : 0.2725317865 < exp (- (1.3)) < 0.2725317949.
Proof.
  replace (- (1.3)) with (- (1) + - (0.3)) by lra. rewrite exp_plus.
  apply Rmult_bounds with (1 := exp_neg_10) (2 := exp_neg_03); lra.
Qed.

Lemma exp_neg_15 : 0.223130154 < exp (- (1.5)) < 0.2231301619.
Proof.
  replace (- (1.5)) with (- (1) + - (0.5)) by lra. rewrite exp_plus.
  apply Rmult_bounds with (1 := exp_neg_10) (2 := exp_neg_05); lra.
Qed.

Lemma exp_neg_16 : 0.201896512 < exp (- (1.6)) < 0.2018965198.
Proof.
  replace (- (1.6)) with (- (1.5) + - (0.1)) by lra. rewrite exp_plus.
  apply Rmult_bounds with (1 := exp_neg_15) (2 := exp_neg_01); lra.
Qed.

Lemma exp_neg_17 : 0.1826835182 < exp (- (1.7)) < 0.1826835259.
Proof.
  replace (- (1.7)) with (- (1.6) + - (0.1)) by lra. rewrite exp_plus.
  apply Rmult_bounds with (1 := exp_neg_16) (2 := exp_neg_01); lra.
Qed.

Lemma exp_neg_18 : 0.1652988825 < exp (- (1.8)) < 0.1652988901.
Proof.
  replace (- (1.8)) with (- (1.7) + - (0.1)) by lra. rewrite exp_plus.
  apply Rmult_bounds with (1 := exp_neg_17) (2 := exp_neg_01); lra.
Qed.

Lemma exp_neg_19 : 0.1495686137 < exp (- (1.9)) < 0.1495686211.
Proof.
  replace (- (1.9)) with (- (1.8) + - (0.1)) by lra. rewrite exp_plus.
  apply Rmult_bounds with (1 := exp_neg_18) (2 := exp_neg_01); lra.
Qed.

Lemma exp_neg_20 : 0.1353352782 < exp (- (2)) < 0.1353352847.
Proof.
  replace (- (2)) with (- (1) + - (1)) by lra. rewrite exp_plus.
  apply Rmult_bounds with (1 := exp_neg_10) (2 := exp_neg_10); lra.
Qed.

Lemma exp_neg_21 : 0.1224564232 < exp (- (2.1)) < 0.12245643.
Proof.
  replace (- (2.1)) with (- (1.9) + - (0.2)) by lra. rewrite exp_plus.
  apply Rmult_bounds with (1 := exp_neg_19) (2 := exp_neg_02); lra.
Qed.
(** Bounds on the factors [1 + exp (- a)] of the reference batch. *)
Lemma softplus_arg_10 : 1.3678794345 < 1 + exp (- (1)) < 1.367879443.
Proof. pose proof exp_neg_10. lra. Qed.

Lemma softplus_arg_13 : 1.2725317865 < 1 + exp (- (1.3)) < 1.2725317949.
Proof. pose proof exp_neg_13. lra. Qed.

Lemma softplus_arg_15 : 1.223130154 < 1 + exp (- (1.5)) < 1.2231301619.
Proof. pose proof exp_neg_15. lra. Qed.

Lemma softplus_arg_16 : 1.201896512 < 1 + exp (- (1.6)) < 1.2018965198.
Proof. pose proof exp_neg_16. lra. Qed.

Lemma softplus_arg_17 : 1.1826835182 < 1 + exp (- (1.7)) < 1.1826835259.
Proof. pose proof exp_neg_17. lra. Qed.

Lemma softplus_arg_18 : 1.1652988825 < 1 + exp (- (1.8)) < 1.1652988901.
Proof. pose proof exp_neg_18. lra. Qed.

Lemma softplus_arg_19 : 1.1495686137 < 1 + exp (- (1.9)) < 1.1495686211.
Proof. pose proof exp_neg_19. lra. Qed.

Lemma softplus_arg_21 : 1.1224564232 < 1 + exp (- (2.1)) < 1.12245643.
Proof. pose proof exp_neg_21. lra. Qed.

Lemma row1_half :
  1.3079972155 < (1 + exp (- (2.1))) * (1 + exp (- (1.8))) < 1.3079972322.
Proof.
  apply Rmult_bounds with (1 := softplus_arg_21) (2 := softplus_arg_18); lra.
Qed.

Lemma row1_product :
  1.7108567156 < ((1 + exp (- (2.1))) * (1 + exp (- (1.8))))
  * ((1 + exp (- (2.1))) * (1 + exp (- (1.8)))) < 1.7108567596.
Proof.
  apply Rmult_bounds with (1 := row1_half) (2 := row1_half); lra.
Qed.

Lemma row2_left :
  1.5724712651 < (1 + exp (- (1.9))) * (1 + exp (- (1))) < 1.5724712853.
Proof.
  apply Rmult_bounds with (1 := softplus_arg_19) (2 := softplus_arg_10); lra.
Qed.

Lemma row2_right :
  1.5564719998 < (1 + exp (- (1.5))) * (1 + exp (- (1.3))) < 1.5564720205.
Proof.
  apply Rmult_bounds with (1 := softplus_arg_15) (2 := softplus_arg_13); lra.
Qed.

Lemma row2_product :
  2.4475074945 < ((1 + exp (- (1.9))) * (1 + exp (- (1))))
  * ((1 + exp (- (1.5))) * (1 + exp (- (1.3)))) < 2.4475075588.
Proof.
  apply Rmult_bounds with (1 := row2_left) (2 := row2_right); lra.
Qed.

Lemma row3_left :
  1.3395910208 < (1 + exp (- (1.9))) * (1 + exp (- (1.8))) < 1.3395910384.
Proof.
  apply Rmult_bounds with (1 := softplus_arg_19) (2 := softplus_arg_18); lra.
Qed.

Lemma row3_right :
  1.4214631952 < (1 + exp (- (1.7))) * (1 + exp (- (1.6))) < 1.421463214.
Proof.
  apply Rmult_bounds with (1 := softplus_arg_17) (2 := softplus_arg_16); lra.
Qed.

Lemma row3_product :
  1.9041793325 < ((1 + exp (- (1.9))) * (1 + exp (- (1.8))))
  * ((1 + exp (- (1.7))) * (1 + exp (- (1.6)))) < 1.904179383.
Proof.
  apply Rmult_bounds with (1 := row3_left) (2 := row3_right); lra.
Qed.

Lemma exp_two : 7.3890560189 < exp 2 < 7.3890563741.
Proof.
  replace 2 with (- - (2)) by lra. rewrite exp_Ropp.
  apply Rinv_bounds with (1 := exp_neg_20); lra.
Qed.

(** [exp] just below and just above three times the loss. *)
Lemma exp_lower_mark : exp 2.07609 < 7.9732328481.
Proof.
  pose proof (exp_taylor_bounds 0.07609 6 ltac:(lra) ltac:(lia)) as H.
  rewrite E1_6, INR_fact_6 in H.
  assert (H1 : 1 < exp 0.07609 < 1.0790596856)
    by (pose proof (exp_ineq1 0.07609 ltac:(lra)); lra).
  replace 2.07609 with (0.07609 + 2) by lra. rewrite exp_plus.
  apply (Rmult_bounds _ _ _ _ 1 _ _ _ H1 exp_two); lra.
Qed.

Lemma exp_upper_mark : 7.9737108682 < exp 2.07615.
Proof.
  pose proof (exp_taylor_bounds 0.07615 6 ltac:(lra) ltac:(lia)) as H.
  rewrite E1_6, INR_fact_6 in H.
  assert (H1 : 1.0791244305 < exp 0.07615 < 2)
    by (pose proof exp_le_3; pose proof (exp_increasing 0.07615 1 ltac:(lra)); lra).
  replace 2.07615 with (0.07615 + 2) by lra. rewrite exp_plus.
  apply (Rmult_bounds _ _ _ _ _ 100 _ _ H1 exp_two); lra.
Qed.

Lemma ln_sum4 (a b c d : R) :
  0 < a -> 0 < b -> 0 < c -> 0 < d ->
  ln a + ln b + ln c + ln d = ln ((a * b) * (c * d)).
Proof.
  intros Ha Hb Hc Hd.
  rewrite !ln_mult by nra. lra.
Qed.

Lemma ln_between (lo hi p : R) :
  exp lo < p < exp hi -> lo < ln p < hi.
Proof.
  intros [H1 H2]. pose proof (exp_pos lo) as Hlo. split.
  - rewrite <- (ln_exp lo). apply ln_increasing; assumption.
  - rewrite <- (ln_exp hi). apply ln_increasing; lra.
Qed.

Lemma example_levels_eq :
  example_levels = [[1; 1; 0; 0]; [1; 0; 0; 0]; [1; 1; 1; 1]].
Proof. reflexivity. Qed.

Lemma importance_weights_eq : importance_weights = [1; 1; 1; 1].
Proof. reflexivity. Qed.

Lemma contribution_level_one (s : R) : contribution 1 s 1 = - ln (1 + exp (- s)).
Proof. unfold contribution. rewrite logsigmoid_softplus. ring. Qed.

Lemma contribution_level_zero (s : R) : contribution 1 s 0 = - ln (1 + exp s).
Proof.
  unfold contribution.
  replace (1 * (logsigmoid s * 0 + (logsigmoid s - s) * (1 - 0)))
    with (logsigmoid s - s) by ring.
  apply logsigmoid_minus_softplus.
Qed.

(** The loss of the reference batch is a third of the logarithm of a
    product of twelve factors [1 + exp (- a)]. *)
Lemma example_rank_loss :
  rank_loss 4 example_logits example_levels importance_weights
  = ln (((1 + exp (- (2.1))) * (1 + exp (- (1.8))))
        * ((1 + exp (- (2.1))) * (1 + exp (- (1.8))))
        * (((1 + exp (- (1.9))) * (1 + exp (- (1))))
           * ((1 + exp (- (1.5))) * (1 + exp (- (1.3)))))
        * (((1 + exp (- (1.9))) * (1 + exp (- (1.8))))
           * ((1 + exp (- (1.7))) * (1 + exp (- (1.6)))))) / 3.
Proof.
  rewrite example_levels_eq, importance_weights_eq.
  unfold rank_loss, mean_over_batch, example_sum, sum_thresholds, example_logits.
  cbn [length seq map nth rsum fold_right].
  rewrite !contribution_level_one, !contribution_level_zero.
  replace (-2.1) with (- (2.1)) by lra.
  replace (-1.8) with (- (1.8)) by lra.
  replace (-1) with (- (1)) by lra.
  replace (-1.5) with (- (1.5)) by lra.
  replace (-1.3) with (- (1.3)) by lra.
  replace (INR 3) with 3 by (cbn; lra).
  pose proof row1_product as R1. pose proof row2_product as R2.
  pose proof row3_product as R3.
  rewrite !ln_mult by nra.
  rewrite <- !ln_sum4 by (apply one_plus_exp_pos).
  lra.
Qed.

Lemma example_product :
  7.9734360668
  < ((1 + exp (- (2.1))) * (1 + exp (- (1.8))))
    * ((1 + exp (- (2.1))) * (1 + exp (- (1.8))))
    * (((1 + exp (- (1.9))) * (1 + exp (- (1))))
       * ((1 + exp (- (1.5))) * (1 + exp (- (1.3)))))
    * (((1 + exp (- (1.9))) * (1 + exp (- (1.8))))
       * ((1 + exp (- (1.7))) * (1 + exp (- (1.6)))))
  < 7.9734366937.
Proof.
  assert (H12 := Rmult_bounds _ _ _ _ 4.1873346333 4.1873348513 _ _
                   row1_product row2_product
                   ltac:(lra) ltac:(lra) ltac:(lra) ltac:(lra)).
  apply Rmult_bounds with (1 := H12) (2 := row3_product); lra.
Qed.

Lemma example_rank_loss_bounds :
  0.69203 < rank_loss 4 example_logits example_levels importance_weights < 0.69205.
Proof.
  rewrite example_rank_loss.
  pose proof example_product as HP.
  pose proof exp_lower_mark as Hlo. pose proof exp_upper_mark as Hhi.
  match goal with
  | |- _ < ln ?p / 3 < _ =>
      pose proof (ln_between 2.07609 2.07615 p ltac:(lra)) as Hln
  end.
  lra.
Qed.

(** C8.  On the reference batch of three examples with [K = 5], the logits
    of the notebook, the labels 2, 1, 4 encoded by [label_to_levels] and
    all-ones importance weights, [loss_fn1] and [loss_fn2] return the same
    number, and it lies between 0.69203 and 0.69205: it is 0.692 to three
    decimals, and 0.6920 to the four the notebook prints. *)
Theorem example_loss_value :
  exists x : R,
    loss_fn1 example_logits example_levels importance_weights = Ok (Real x) /\
    loss_fn2 example_logits example_levels importance_weights = Ok (Real x) /\
    0.69203 < x < 0.69205 /\
    Rabs (x - 0.692) < 0.0001.
Proof.
  exists (rank_loss 4 example_logits example_levels importance_weights).
  assert (H2 : loss_fn2 example_logits example_levels importance_weights
               = Ok (Real (rank_loss 4 example_logits example_levels
                             importance_weights))).
  { apply (loss_fn2_shapes 4).
    - discriminate.
    - reflexivity.
    - repeat constructor.
    - rewrite example_levels_eq. repeat constructor.
    - reflexivity. }
  pose proof example_rank_loss_bounds as Hb.
  repeat split; try lra.
  - rewrite loss_fn1_eq_loss_fn2. exact H2.
  - exact H2.
  - apply Rabs_def1; lra.
Qed.

(** * Further properties of the notebook's code *)

(** ** Encoding a batch of labels *)

Lemma encode_loop_map (K : Z) (ys : list Z) (acc : tensor2) :
  fold_left (fun levels label => levels ++ [label_to_levels label K]) ys acc
  = acc ++ levels_of_labels ys K.
Proof.
  revert acc. induction ys as [|y ys IH]; intros acc; cbn.
  - symmetry. apply app_nil_r.
  - rewrite IH, <- app_assoc. reflexivity.
Qed.

Lemma encode_labels_stack (ys : list Z) (K : Z) :
  encode_labels ys K = torch_stack (levels_of_labels ys K).
Proof.
  unfold encode_labels. cbv zeta. rewrite encode_loop_map. reflexivity.
Qed.

Lemma row_size_length (y K : Z) : length (label_to_levels y K) = row_size y K.
Proof. apply label_to_levels_length. Qed.

Lemma levels_of_labels_rect (K : Z) (ys : list Z) :
  Forall (fun y => 0 <= y <= K - 1)%Z ys ->
  rect (Z.to_nat (K - 1)) (levels_of_labels ys K).
Proof.
  intros H. unfold rect, levels_of_labels. rewrite Forall_map.
  eapply Forall_impl; [|exact H]. cbn. intros y Hy.
  apply label_to_levels_length_valid, Hy.
Qed.

Lemma label_to_levels_binary (y K : Z) :
  Forall (fun v => v = 0 \/ v = 1) (label_to_levels y K).
Proof.
  rewrite label_to_levels_unfold. apply Forall_app. split.
  - apply Forall_forall. intros v Hv. apply repeat_spec in Hv. right. exact Hv.
  - apply Forall_forall. intros v Hv. apply repeat_spec in Hv. left. exact Hv.
Qed.

Lemma torch_stack_ok (n : nat) (ts : tensor2) :
  ts <> [] -> rect n ts -> torch_stack ts = Ok ts.
Proof.
  intros Hne Hr. destruct ts as [|t ts]; [contradiction|].
  inversion Hr as [|? ? Ht Hts]; subst. cbn [torch_stack].
  replace (forallb (fun r => Nat.eqb (length r) (length t)) ts) with true;
    [reflexivity|].
  symmetry. apply forallb_forall. intros r Hr'.
  apply Nat.eqb_eq. unfold rect in Hts. rewrite Forall_forall in Hts.
  apply Hts, Hr'.
Qed.

(** X1.  Encoding a non-empty batch of labels that all lie in [0, K-1]
    succeeds: the stacked tensor has one row per label, row [e] being
    [label_to_levels] of label [e], every row has [K-1] entries and every
    entry is 0 or 1. *)
Theorem encode_labels_valid (K : Z) (ys : list Z) :
  ys <> [] -> Forall (fun y => 0 <= y <= K - 1)%Z ys ->
  exists levels : tensor2,
    encode_labels ys K = Ok levels /\
    length levels = length ys /\
    rect (Z.to_nat (K - 1)) levels /\
    binary levels /\
    forall e : nat, (e < length ys)%nat ->
      nth e levels [] = label_to_levels (nth e ys 0%Z) K.
Proof.
  intros Hne Hys. exists (levels_of_labels ys K).
  assert (Hrect := levels_of_labels_rect K ys Hys).
  repeat split.
  - rewrite encode_labels_stack.
    apply (torch_stack_ok (Z.to_nat (K - 1))); [|exact Hrect].
    destruct ys; [contradiction | discriminate].
  - apply length_map.
  - exact Hrect.
  - unfold binary, levels_of_labels. rewrite Forall_map.
    apply Forall_forall. intros y _. apply label_to_levels_binary.
  - intros e He. unfold levels_of_labels.
    apply (nth_map_lt (fun y => label_to_levels y K)). exact He.
Qed.

Lemma encode_labels_valid_witness :
  exists levels : tensor2,
    encode_labels [2; 1; 4]%Z 5 = Ok levels /\
    length levels = length [2; 1; 4]%Z /\
    rect (Z.to_nat (5 - 1)) levels /\
    binary levels /\
    forall e : nat, (e < length [2; 1; 4]%Z)%nat ->
      nth e levels [] = label_to_levels (nth e [2; 1; 4]%Z 0%Z) 5.
Proof.
  apply (encode_labels_valid 5 [2; 1; 4]%Z).
  - discriminate.
  - repeat constructor; lia.
Defined.

(** X2.  What the stacking accepts, for labels of any kind: encoding
    succeeds exactly when the batch is not empty and all labels give rows
    of one size, the size for label [y] being
    [max(y,0) + max(K-1-y,0)]; otherwise it raises.  In particular an empty
    batch raises, a batch mixing a label of [0, K-1] with one above [K-1]
    raises, and a batch whose labels are all the same out-of-range value is
    accepted. *)
Theorem encode_labels_accepts (K : Z) (ys : list Z) :
  (encode_labels ys K = Ok (levels_of_labels ys K) <->
   ys <> [] /\ forall y, In y ys -> row_size y K = row_size (hd 0%Z ys) K) /\
  (encode_labels ys K = Raise RuntimeError <->
   ys = [] \/ exists y, In y ys /\ row_size y K <> row_size (hd 0%Z ys) K) /\
  (forall t, encode_labels ys K = Ok t -> t = levels_of_labels ys K).
Proof.
  rewrite encode_labels_stack. destruct ys as [|y0 ys].
  - cbn. split; [|split].
    + split; [discriminate | intros [H _]; contradiction].
    + split; [intros _; left; reflexivity | reflexivity].
    + intros t H. discriminate.
  - cbn [levels_of_labels map torch_stack hd].
    fold (levels_of_labels ys K). rewrite (row_size_length y0 K).
    destruct (forallb (fun r => Nat.eqb (length r) (row_size y0 K))
                (levels_of_labels ys K)) eqn:Hall.
    + assert (Hsame : forall y, In y (y0 :: ys) -> row_size y K = row_size y0 K).
      { intros y [<-|Hy]; [reflexivity|].
        rewrite forallb_forall in Hall.
        specialize (Hall (label_to_levels y K)
                      (in_map (fun y => label_to_levels y K) ys y Hy)).
        apply Nat.eqb_eq in Hall. rewrite row_size_length in Hall. exact Hall. }
      split; [|split].
      * split; [intros _; split; [discriminate | exact Hsame] | reflexivity].
      * split; [discriminate|].
        intros [H | [y [Hy Hneq]]]; [discriminate|].
        exfalso. apply Hneq, Hsame, Hy.
      * intros t H. inversion H. reflexivity.
    + assert (Hdiff : exists y, In y (y0 :: ys) /\ row_size y K <> row_size y0 K).
      { assert (Hex : existsb (fun r => negb (Nat.eqb (length r) (row_size y0 K)))
                        (levels_of_labels ys K) = true).
        { clear -Hall. induction (levels_of_labels ys K) as [|r l IH]; cbn in *.
          - discriminate.
          - destruct (Nat.eqb (length r) (row_size y0 K)); cbn in *.
            + apply IH, Hall.
            + reflexivity. }
        apply existsb_exists in Hex. destruct Hex as [r [Hr Hneq]].
        unfold levels_of_labels in Hr. apply in_map_iff in Hr.
        destruct Hr as [y [<- Hy]]. exists y. split; [right; exact Hy|].
        rewrite row_size_length in Hneq.
        apply negb_true_iff, Nat.eqb_neq in Hneq. exact Hneq. }
      split; [|split].
      * split; [discriminate|].
        intros [_ Hsame]. destruct Hdiff as [y [Hy Hneq]].
        exfalso. apply Hneq, Hsame, Hy.
      * split; [intros _; right; exact Hdiff | reflexivity].
      * intros t H. discriminate.
Qed.

(** An instance of each case. *)
Lemma encode_labels_cases :
  encode_labels [] 5 = Raise RuntimeError /\
  encode_labels [2; 7]%Z 5 = Raise RuntimeError /\
  encode_labels [7; 7]%Z 5 = Ok [repeat 1 7; repeat 1 7].
Proof. repeat split. Qed.

Lemma encode_labels_accepts_witness :
  (encode_labels [2; 7]%Z 5 = Ok (levels_of_labels [2; 7]%Z 5) <->
   [2; 7]%Z <> [] /\
   forall y, In y [2; 7]%Z -> row_size y 5 = row_size (hd 0%Z [2; 7]%Z) 5) /\
  (encode_labels [2; 7]%Z 5 = Raise RuntimeError <->
   [2; 7]%Z = [] \/
   exists y, In y [2; 7]%Z /\ row_size y 5 <> row_size (hd 0%Z [2; 7]%Z) 5) /\
  (forall t, encode_labels [2; 7]%Z 5 = Ok t -> t = levels_of_labels [2; 7]%Z 5).
Proof.
  apply (encode_labels_accepts 5 [2; 7]%Z).
Defined.

(** X3.  The encoding preserves the order of the labels: for labels of
    [0, K-1], [y1 <= y2] exactly when the levels of [y1] are entrywise at
    most the levels of [y2]; so two different labels never share their
    levels. *)
Theorem label_to_levels_order (K y1 y2 : Z) :
  (0 <= y1 <= K - 1)%Z -> (0 <= y2 <= K - 1)%Z ->
  ((y1 <= y2)%Z <->
   forall i : nat, nth i (label_to_levels y1 K) 0 <= nth i (label_to_levels y2 K) 0) /\
  (label_to_levels y1 K = label_to_levels y2 K -> y1 = y2).
Proof.
  intros H1 H2.
  assert (Hnth : forall y i, (0 <= y <= K - 1)%Z -> (i < Z.to_nat (K - 1))%nat ->
            nth i (label_to_levels y K) 0 = if (i <? Z.to_nat y)%nat then 1 else 0).
  { intros y i Hy Hi. rewrite label_to_levels_unfold.
    apply nth_repeat_app. lia. }
  assert (Hback : (forall i : nat, nth i (label_to_levels y1 K) 0
                                   <= nth i (label_to_levels y2 K) 0) ->
                  (y1 <= y2)%Z).
  { intros Hle. destruct (Z.le_gt_cases y1 y2) as [Hok|Hgt]; [exact Hok|].
    exfalso. specialize (Hle (Z.to_nat y2)).
    rewrite !Hnth in Hle by lia.
    destruct (Nat.ltb_spec (Z.to_nat y2) (Z.to_nat y1)) as [_|Hc]; [|lia].
    rewrite Nat.ltb_irrefl in Hle. lra. }
  split; [split|].
  - intros Hle i.
    destruct (Nat.lt_ge_cases i (Z.to_nat (K - 1))) as [Hi|Hi].
    + rewrite !Hnth by lia.
      destruct (Nat.ltb_spec i (Z.to_nat y1)) as [Ha|Ha];
        destruct (Nat.ltb_spec i (Z.to_nat y2)) as [Hb|Hb]; try lra; lia.
    + rewrite !nth_overflow
        by (rewrite label_to_levels_length_valid by assumption; exact Hi).
      lra.
  - exact Hback.
  - intros Heq. apply Z.le_antisymm.
    + apply Hback. intros i. rewrite Heq. lra.
    + destruct (Z.le_gt_cases y2 y1) as [Hok|Hgt]; [exact Hok|].
      exfalso. pose proof (Hnth y1 (Z.to_nat y1) H1 ltac:(lia)) as Ha.
      pose proof (Hnth y2 (Z.to_nat y1) H2 ltac:(lia)) as Hb.
      rewrite Heq, Hb in Ha.
      rewrite Nat.ltb_irrefl in Ha.
      destruct (Nat.ltb_spec (Z.to_nat y1) (Z.to_nat y2)) as [_|Hc]; [lra | lia].
Qed.

Lemma label_to_levels_order_witness :
  ((1 <= 3)%Z <->
   forall i : nat, nth i (label_to_levels 1 5) 0 <= nth i (label_to_levels 3 5) 0) /\
  (label_to_levels 1 5 = label_to_levels 3 5 -> 1%Z = 3%Z).
Proof.
  apply (label_to_levels_order 5 1 3); lia.
Defined.

(** ** Sums of mapped lists *)

Lemma rsum_map_ext_in {A : Type} (f g : A -> R) (l : list A) :
  (forall i, In i l -> f i = g i) -> rsum (map f l) = rsum (map g l).
Proof.
  intros H. f_equal. apply map_ext_in, H.
Qed.

Lemma rsum_map_linear {A : Type} (a b : R) (f g : A -> R) (l : list A) :
  rsum (map (fun i => a * f i + b * g i) l)
  = a * rsum (map f l) + b * rsum (map g l).
Proof.
  induction l as [|x l IH]; cbn.
  - ring.
  - fold (rsum (map (fun i => a * f i + b * g i) l)).
    fold (rsum (map f l)). fold (rsum (map g l)). rewrite IH. ring.
Qed.

Lemma rsum_map_le {A : Type} (f g : A -> R) (l : list A) :
  (forall i, In i l -> f i <= g i) -> rsum (map f l) <= rsum (map g l).
Proof.
  induction l as [|x l IH]; cbn; intros H.
  - lra.
  - fold (rsum (map f l)). fold (rsum (map g l)).
    pose proof (H x (or_introl eq_refl)).
    pose proof (IH (fun i Hi => H i (or_intror Hi))). lra.
Qed.

(** ** More on the rank loss *)

Lemma contribution_linear (a b p q s v : R) :
  contribution (a * p + b * q) s v
  = a * contribution p s v + b * contribution q s v.
Proof. unfold contribution. ring. Qed.

Lemma example_sum_linear (n : nat) (a b : R) (s v w1 w2 : tensor1) :
  length w1 = n -> length w2 = n ->
  example_sum n s v (zipWith (fun p q => a * p + b * q) w1 w2)
  = a * example_sum n s v w1 + b * example_sum n s v w2.
Proof.
  intros H1 H2. unfold example_sum, sum_thresholds.
  rewrite <- rsum_map_linear. apply rsum_map_ext_in.
  intros i Hi. apply in_seq in Hi.
  rewrite (nth_zipWith _ _ _ _ 0 0) by lia.
  apply contribution_linear.
Qed.

Lemma rank_loss_linear (n : nat) (a b : R) (s v : tensor2) (w1 w2 : tensor1) :
  length w1 = n -> length w2 = n ->
  rank_loss n s v (zipWith (fun p q => a * p + b * q) w1 w2)
  = a * rank_loss n s v w1 + b * rank_loss n s v w2.
Proof.
  intros H1 H2. unfold rank_loss, mean_over_batch.
  rewrite (rsum_map_ext_in _
             (fun e => a * example_sum n (nth e s []) (nth e v []) w1
                       + b * example_sum n (nth e s []) (nth e v []) w2))
    by (intros e _; apply example_sum_linear; assumption).
  rewrite rsum_map_linear. unfold Rdiv. ring.
Qed.

(** X4.  The loss is linear in the importance weights: on a non-empty batch
    of matching shapes, the loss under the weights [a*w1 + b*w2] is [a]
    times the loss under [w1] plus [b] times the loss under [w2]. *)
Theorem loss_fn2_linear_in_weights (n : nat) (a b : R) (s v : tensor2)
        (w1 w2 : tensor1) :
  s <> [] -> length s = length v -> rect n s -> rect n v ->
  length w1 = n -> length w2 = n ->
  exists x1 x2 : R,
    loss_fn2 s v w1 = Ok (Real x1) /\
    loss_fn2 s v w2 = Ok (Real x2) /\
    loss_fn2 s v (zipWith (fun p q => a * p + b * q) w1 w2)
      = Ok (Real (a * x1 + b * x2)).
Proof.
  intros Hne Hlen Hs Hv H1 H2.
  exists (rank_loss n s v w1), (rank_loss n s v w2).
  split; [apply (loss_fn2_shapes n); assumption|].
  split; [apply (loss_fn2_shapes n); assumption|].
  rewrite <- rank_loss_linear by assumption.
  apply (loss_fn2_shapes n); try assumption.
  rewrite length_zipWith, H1, H2. apply Nat.min_id.
Qed.

Lemma loss_fn2_linear_in_weights_witness :
  exists x1 x2 : R,
    loss_fn2 [[2; -1]] [[1; 0]] [1; 0] = Ok (Real x1) /\
    loss_fn2 [[2; -1]] [[1; 0]] [0; 1] = Ok (Real x2) /\
    loss_fn2 [[2; -1]] [[1; 0]] (zipWith (fun p q => 3 * p + 5 * q) [1; 0] [0; 1])
      = Ok (Real (3 * x1 + 5 * x2)).
Proof.
  apply (loss_fn2_linear_in_weights 2 3 5 [[2; -1]] [[1; 0]] [1; 0] [0; 1]).
  - discriminate.
  - reflexivity.
  - repeat constructor.
  - repeat constructor.
  - reflexivity.
  - reflexivity.
Defined.

Lemma logsigmoid_opp (s : R) : logsigmoid (- s) = logsigmoid s - s.
Proof.
  rewrite logsigmoid_minus_softplus, logsigmoid_softplus, Ropp_involutive.
  reflexivity.
Qed.

Lemma contribution_flip (w s v : R) :
  contribution w (- s) (1 - v) = contribution w s v.
Proof.
  unfold contribution. rewrite logsigmoid_opp. ring.
Qed.

Lemma nth_map2d (f : R -> R) (t : tensor2) (e : nat) :
  nth e (map2d f t) [] = map f (nth e t []).
Proof. unfold map2d. apply (map_nth (map f) t [] e). Qed.

(** X5.  Negating every score and replacing every level [l] by [1 - l]
    does not change the loss. *)
Theorem loss_fn2_flip (n : nat) (s v : tensor2) (w : tensor1) :
  s <> [] -> length s = length v -> rect n s -> rect n v -> length w = n ->
  loss_fn2 (map2d Ropp s) (map2d (fun l => 1 - l) v) w = loss_fn2 s v w.
Proof.
  intros Hne Hlen Hs Hv Hw.
  rewrite (loss_fn2_shapes n s v w) by assumption.
  rewrite (loss_fn2_shapes n).
  - do 2 f_equal. unfold rank_loss, mean_over_batch.
    rewrite map2d_length. do 2 f_equal.
    apply rsum_map_ext_in. intros e He. apply in_seq in He.
    rewrite !nth_map2d. unfold example_sum, sum_thresholds.
    apply rsum_map_ext_in. intros i Hi. apply in_seq in Hi.
    rewrite !(nth_map_lt _ _ _ _ 0)
      by (rewrite rect_nth with (n := n); (assumption || lia)).
    apply contribution_flip.
  - intros H. apply Hne. destruct s; [reflexivity | discriminate].
  - rewrite !map2d_length. exact Hlen.
  - apply rect_map2d, Hs.
  - apply rect_map2d, Hv.
  - exact Hw.
Qed.

Lemma loss_fn2_flip_witness :
  loss_fn2 (map2d Ropp [[2; -1]]) (map2d (fun l => 1 - l) [[1; 0]]) [1; 3]
  = loss_fn2 [[2; -1]] [[1; 0]] [1; 3].
Proof.
  apply (loss_fn2_flip 2 [[2; -1]] [[1; 0]] [1; 3]).
  - discriminate.
  - reflexivity.
  - repeat constructor.
  - repeat constructor.
  - reflexivity.
Defined.

Lemma softplus_monotone (x y : R) : x <= y -> ln (1 + exp x) <= ln (1 + exp y).
Proof.
  intros [Hlt | ->]; [|lra]. left.
  apply ln_increasing; [apply one_plus_exp_pos|].
  pose proof (exp_increasing x y Hlt). lra.
Qed.

Lemma contribution_monotone (w s s' v : R) :
  0 <= w ->
  (v = 1 /\ s <= s') \/ (v = 0 /\ s' <= s) ->
  contribution w s v <= contribution w s' v.
Proof.
  intros Hw [[-> Hs] | [-> Hs]]; unfold contribution.
  - rewrite !logsigmoid_softplus.
    pose proof (softplus_monotone (- s') (- s) ltac:(lra)). nra.
  - rewrite !logsigmoid_minus_softplus.
    pose proof (softplus_monotone s' s Hs). nra.
Qed.

(** X6.  The loss follows the scores in the right direction: with
    non-negative weights and levels in {0,1}, raising scores where the level
    is 1 and lowering scores where the level is 0 never increases the
    loss. *)
Theorem loss_fn2_monotone (n : nat) (s s' v : tensor2) (w : tensor1) :
  s <> [] -> length s = length v -> length s' = length s ->
  rect n s -> rect n s' -> rect n v -> length w = n ->
  binary v -> Forall (fun x => 0 <= x) w ->
  (forall e i : nat, (e < length s)%nat -> (i < n)%nat ->
     (nth i (nth e v []) 0 = 1 -> nth i (nth e s []) 0 <= nth i (nth e s' []) 0) /\
     (nth i (nth e v []) 0 = 0 -> nth i (nth e s' []) 0 <= nth i (nth e s []) 0)) ->
  exists x x' : R,
    loss_fn2 s v w = Ok (Real x) /\ loss_fn2 s' v w = Ok (Real x') /\ x' <= x.
Proof.
  intros Hne Hlen Hlen' Hs Hs' Hv Hw Hbin Hpos Hdir.
  exists (rank_loss n s v w), (rank_loss n s' v w).
  split; [apply (loss_fn2_shapes n); assumption|].
  split.
  { apply (loss_fn2_shapes n); try assumption; try lia.
    intros H. apply Hne. destruct s; [reflexivity|].
    rewrite H in Hlen'. discriminate. }
  unfold rank_loss, mean_over_batch. rewrite Hlen'.
  assert (HB : 0 < / INR (length s)).
  { apply Rinv_0_lt_compat, lt_0_INR. destruct s; [contradiction | cbn; lia]. }
  assert (Hsum :
    rsum (map (fun e => example_sum n (nth e s []) (nth e v []) w) (seq 0 (length s)))
    <= rsum (map (fun e => example_sum n (nth e s' []) (nth e v []) w)
                 (seq 0 (length s)))).
  { apply rsum_map_le. intros e He. apply in_seq in He.
    unfold example_sum, sum_thresholds.
    apply rsum_map_le. intros i Hi. apply in_seq in Hi.
    apply contribution_monotone.
    - rewrite Forall_forall in Hpos. apply Hpos, nth_In. lia.
    - destruct (Hdir e i ltac:(lia) ltac:(lia)) as [H1 H0].
      assert (Hb : nth i (nth e v []) 0 = 0 \/ nth i (nth e v []) 0 = 1).
      { unfold binary in Hbin. rewrite Forall_forall in Hbin.
        assert (Hrow : In (nth e v []) v) by (apply nth_In; lia).
        specialize (Hbin _ Hrow). rewrite Forall_forall in Hbin.
        apply Hbin, nth_In. rewrite (rect_nth n) by (assumption || lia). lia. }
      destruct Hb as [Hb|Hb]; [right | left]; split; auto. }
  unfold Rdiv. nra.
Qed.

Lemma loss_fn2_monotone_witness :
  exists x x' : R,
    loss_fn2 [[2; -1]] [[1; 0]] [1; 3] = Ok (Real x) /\
    loss_fn2 [[3; -2]] [[1; 0]] [1; 3] = Ok (Real x') /\ x' <= x.
Proof.
  apply (loss_fn2_monotone 2 [[2; -1]] [[3; -2]] [[1; 0]] [1; 3]).
  - discriminate.
  - reflexivity.
  - reflexivity.
  - repeat constructor.
  - repeat constructor.
  - repeat constructor.
  - reflexivity.
  - repeat constructor; (left; reflexivity) || (right; reflexivity).
  - repeat constructor; lra.
  - intros [|e] [|[|i]] He Hi; cbn in He, Hi; try lia; cbn; split; intros; lra.
Defined.

(** ** Broadcasting a single weight *)







(** ** The batch loss from the losses of its examples *)

Lemma rank_loss_single (n : nat) (s v w : tensor1) :
  rank_loss n [s] [v] w = - example_sum n s v w.
Proof.
  unfold rank_loss, mean_over_batch. cbn. lra.
Qed.

(** X9.  The loss of a batch is the mean of the losses that its examples
    have when each is passed alone as a batch of one. *)
Theorem loss_fn2_mean_of_examples (n : nat) (s v : tensor2) (w : tensor1) :
  s <> [] -> length s = length v -> rect n s -> rect n v -> length w = n ->
  exists f : nat -> R,
    (forall e : nat, (e < length s)%nat ->
       loss_fn2 [nth e s []] [nth e v []] w = Ok (Real (f e))) /\
    loss_fn2 s v w = Ok (Real (mean_over_batch (length s) f)).
Proof.
  intros Hne Hlen Hs Hv Hw.
  exists (fun e => - example_sum n (nth e s []) (nth e v []) w). split.
  - intros e He. rewrite <- rank_loss_single.
    apply (loss_fn2_shapes n).
    + discriminate.
    + reflexivity.
    + constructor; [|constructor]. apply rect_nth; assumption.
    + constructor; [|constructor]. apply rect_nth; [assumption | lia].
    + exact Hw.
  - rewrite (loss_fn2_shapes n) by assumption. do 2 f_equal.
    unfold rank_loss, mean_over_batch.
    rewrite <- (map_map (fun e => example_sum n (nth e s []) (nth e v []) w) Ropp).
    rewrite rsum_map_opp. unfold Rdiv. ring.
Qed.

Lemma loss_fn2_mean_of_examples_witness :
  exists f : nat -> R,
    (forall e : nat, (e < 2)%nat ->
       loss_fn2 [nth e [[2; -1]; [0; 3]] []] [nth e [[1; 0]; [1; 1]] []] [1; 1]
       = Ok (Real (f e))) /\
    loss_fn2 [[2; -1]; [0; 3]] [[1; 0]; [1; 1]] [1; 1]
    = Ok (Real (mean_over_batch 2 f)).
Proof.
  apply (loss_fn2_mean_of_examples 2 [[2; -1]; [0; 3]] [[1; 0]; [1; 1]] [1; 1]).
  - discriminate.
  - reflexivity.
  - repeat constructor.
  - repeat constructor.
  - reflexivity.
Defined.

(** ** More on the rank decoder *)

Lemma positive_true (x : R) : positive x = true <-> 0 < x.
Proof.
  unfold positive. destruct (Rlt_dec 0 x) as [H|H]; split; intros H';
    try assumption; try reflexivity; try discriminate; contradiction.
Qed.

Lemma sigmoid_above_half (x : R) : 1 / 2 < sigmoid x <-> 0 < x.
Proof.
  rewrite sigmoid_alt. pose proof (exp_pos (- x)) as He.
  assert (Hinv : (1 + exp (- x)) * / (1 + exp (- x)) = 1)
    by (apply Rinv_r; lra).
  assert (Hp : 0 < / (1 + exp (- x))) by (apply Rinv_0_lt_compat; lra).
  split.
  - intros H. assert (H1 : exp (- x) < 1) by nra.
    rewrite <- exp_0 in H1. apply exp_lt_inv in H1. lra.
  - intros H. assert (H1 : exp (- x) < exp 0) by (apply exp_increasing; lra).
    rewrite exp_0 in H1. nra.
Qed.

Lemma bsum_bounds_lower (bs : list bool) : (0 <= bsum bs)%Z.
Proof.
  induction bs as [|b bs IH]; cbn [bsum fold_right].
  - lia.
  - fold (bsum bs). destruct b; lia.
Qed.

Lemma gt_half_sigmoid_nonpos (x : R) : x <= 0 -> gt_half (sigmoid x) = false.
Proof.
  intros Hx. apply not_true_is_false. intros H.
  apply gt_half_true, sigmoid_above_half in H. lra.
Qed.

Lemma bsum_sigmoid_le_positive (row : tensor1) :
  (bsum (map gt_half (map sigmoid row)) <= bsum (map positive row))%Z.
Proof.
  induction row as [|x row IH]; cbn [map bsum fold_right].
  - lia.
  - fold (bsum (map gt_half (map sigmoid row))). fold (bsum (map positive row)).
    destruct (positive x) eqn:Hp.
    + destruct (gt_half (sigmoid x)); lia.
    + rewrite gt_half_sigmoid_nonpos; [lia|].
      destruct (Rle_dec x 0) as [Hle|Hgt]; [exact Hle|].
      exfalso. apply Rnot_le_lt, positive_true in Hgt. congruence.
Qed.

(** X11.  A logit that is not above 0 is never counted by the decoder: for
    [x <= 0] the probability [sigmoid x] is not above one half.  Hence the
    label predicted from the probabilities [sigmoid(s)] of a row is at most
    the number of strictly positive entries of [s]. *)
Theorem predicted_labels_of_sigmoid (logits : tensor2) :
  (forall x : R, x <= 0 -> gt_half (sigmoid x) = false) /\
  length (predicted_labels (map2d sigmoid logits)) = length logits /\
  forall e : nat, (e < length logits)%nat ->
    (0 <= nth e (predicted_labels (map2d sigmoid logits)) 0
       <= bsum (map positive (nth e logits [])))%Z.
Proof.
  split; [apply gt_half_sigmoid_nonpos|].
  split; [rewrite predicted_labels_length; apply map2d_length|].
  intros e He.
  assert (Hrow : nth e (predicted_labels (map2d sigmoid logits)) 0%Z
                 = bsum (map gt_half (map sigmoid (nth e logits [])))).
  { unfold predicted_labels, predict_levels, map2d.
    rewrite (nth_map_lt bsum _ _ _ []) by (rewrite !length_map; exact He).
    rewrite (nth_map_lt (map gt_half) _ _ _ []) by (rewrite length_map; exact He).
    rewrite (nth_map_lt (map sigmoid) _ _ _ []) by exact He. reflexivity. }
  rewrite Hrow. split.
  - apply bsum_bounds_lower.
  - apply bsum_sigmoid_le_positive.
Qed.

Lemma predicted_labels_of_sigmoid_witness :
  (forall x : R, x <= 0 -> gt_half (sigmoid x) = false) /\
  length (predicted_labels (map2d sigmoid [[2; -1; 0]])) = 1%nat /\
  forall e : nat, (e < 1)%nat ->
    (0 <= nth e (predicted_labels (map2d sigmoid [[2; -1; 0]]%R)) 0
       <= bsum (map positive (nth e [[2; -1; 0]]%R [])))%Z.
Proof.
  apply (predicted_labels_of_sigmoid [[2; -1; 0]]).
Defined.

Lemma bsum_permutation (a b : list bool) : Permutation a b -> bsum a = bsum b.
Proof.
  induction 1 as [|x a b _ IH|x y a|a b c _ IH1 _ IH2]; cbn.
  - reflexivity.
  - fold (bsum a). fold (bsum b). rewrite IH. reflexivity.
  - fold (bsum a). lia.
  - congruence.
Qed.

(** X12.  The decoder ignores the positions of the thresholds: reordering
    the entries of a probability row does not change its predicted
    label. *)
Theorem predicted_labels_order_free (p p' : tensor1) :
  Permutation p p' -> predicted_labels [p] = predicted_labels [p'].
Proof.
  intros Hp. unfold predicted_labels, predict_levels. cbn [map]. f_equal.
  apply bsum_permutation, Permutation_map, Hp.
Qed.

Lemma predicted_labels_order_free_witness :
  predicted_labels [[1 / 4; 3 / 4]] = predicted_labels [[3 / 4; 1 / 4]].
Proof.
  apply (predicted_labels_order_free [1 / 4; 3 / 4] [3 / 4; 1 / 4]).
  apply perm_swap.
Defined.

Lemma gt_half_monotone (x y : R) :
  x <= y -> gt_half x = true -> gt_half y = true.
Proof.
  intros Hxy Hx. apply gt_half_true. apply gt_half_true in Hx. lra.
Qed.

(** X13.  The decoder is monotone: raising probabilities entrywise never
    lowers the predicted label. *)
Theorem predicted_labels_monotone (p p' : tensor1) :
  Forall2 Rle p p' ->
  exists y y' : Z,
    predicted_labels [p] = [y] /\ predicted_labels [p'] = [y'] /\ (y <= y')%Z.
Proof.
  intros H. exists (bsum (map gt_half p)), (bsum (map gt_half p')).
  split; [reflexivity|]. split; [reflexivity|].
  induction H as [|x x' p p' Hx _ IH]; cbn.
  - lia.
  - fold (bsum (map gt_half p)). fold (bsum (map gt_half p')).
    pose proof (gt_half_monotone x x' Hx) as Hm.
    destruct (gt_half x), (gt_half x'); try lia.
Qed.

Lemma predicted_labels_monotone_witness :
  exists y y' : Z,
    predicted_labels [[1 / 4; 3 / 4]] = [y] /\
    predicted_labels [[3 / 4; 3 / 4]] = [y'] /\ (y <= y')%Z.
Proof.
  apply (predicted_labels_monotone [1 / 4; 3 / 4] [3 / 4; 3 / 4]).
  apply Forall2_cons; [lra|]. apply Forall2_cons; [lra|]. apply Forall2_nil.
Defined.

(** ** The CORAL layer *)

Lemma fc_ok (w : tensor1) (x : tensor2) :
  rect (length w) x -> fc w x = Ok (map (fun row => [dot row w]) x).
Proof.
  intros Hx. unfold fc. apply mapM_ok. intros row Hrow.
  unfold rect in Hx. rewrite Forall_forall in Hx.
  rewrite (Hx row Hrow), Nat.eqb_refl. reflexivity.
Qed.

Lemma mapM_raise {A B : Type} (f : A -> result B) (l : list A) :
  (exists x, In x l /\ f x = Raise RuntimeError) ->
  mapM f l = Raise RuntimeError.
Proof.
  induction l as [|a l IH]; intros [x [Hin Hx]].
  - contradiction.
  - cbn. destruct Hin as [->|Hin].
    + rewrite Hx. reflexivity.
    + destruct (f a) as [y|[]]; [|reflexivity]. cbn.
      rewrite IH by (exists x; split; assumption). reflexivity.
Qed.

Lemma fc_rejects (w : tensor1) (x : tensor2) :
  (exists row, In row x /\ length row <> length w) ->
  fc w x = Raise RuntimeError.
Proof.
  intros [row [Hin Hlen]]. unfold fc. apply mapM_raise.
  exists row. split; [exact Hin|].
  rewrite (proj2 (Nat.eqb_neq _ _) Hlen). reflexivity.
Qed.

(** One output unit against the bias vector: the unit is repeated. *)
Lemma ew1_unit_bias (z : R) (b : tensor1) :
  ew1 Rplus [z] b = Ok (map (fun bk => z + bk) b).
Proof.
  unfold ew1, broadcast. destruct b as [|b0 [|b1 b]].
  - reflexivity.
  - reflexivity.
  - cbn [length Nat.eqb].
    apply (mapM_ok (fun y => Ok (z + y)) (fun bk => z + bk)). reflexivity.
Qed.

Lemma ew21_units_bias (g : list R -> R) (x : tensor2) (b : tensor1) :
  ew21 Rplus (map (fun row => [g row]) x) b
  = Ok (map (fun row => map (fun bk => g row + bk) b) x).
Proof.
  unfold ew21, ew2, broadcast. destruct x as [|r [|r' x]].
  - reflexivity.
  - cbn. rewrite ew1_unit_bias. reflexivity.
  - cbn [map length Nat.eqb].
    change (mapM (fun u => ew1 Rplus u b)
              (map (fun row => [g row]) (r :: r' :: x))
            = Ok (map (fun row => map (fun bk => g row + bk) b) (r :: r' :: x))).
    induction (r :: r' :: x) as [|a l IH]; cbn.
    + reflexivity.
    + rewrite ew1_unit_bias. cbn. rewrite IH. reflexivity.
Qed.

Lemma coral_layer_ok (w b : tensor1) (x : tensor2) :
  rect (length w) x ->
  coral_layer w b x
  = Ok (map (fun row => map (fun bk => dot row w + bk) b) x,
        map (fun row => map (fun bk => sigmoid (dot row w + bk)) b) x).
Proof.
  intros Hx. unfold coral_layer. rewrite fc_ok by exact Hx. cbn [bind].
  rewrite (ew21_units_bias (fun row => dot row w)). cbn [bind].
  unfold map2d. rewrite map_map. do 2 f_equal.
  apply map_ext. intros row. apply map_map.
Qed.

(** X14.  On a batch whose rows have the layer's input size, the CORAL
    layer returns logits and probabilities with one row per example and one
    entry per bias unit; logit [k] of example [e] is [x_e . w + b_k], the
    same weighted sum for every threshold, and the probability is its
    sigmoid. *)
Theorem coral_layer_values (w b : tensor1) (x : tensor2) :
  rect (length w) x ->
  exists logits probas : tensor2,
    coral_layer w b x = Ok (logits, probas) /\
    length logits = length x /\ length probas = length x /\
    rect (length b) logits /\ rect (length b) probas /\
    forall e k : nat, (e < length x)%nat -> (k < length b)%nat ->
      nth k (nth e logits []) 0 = dot (nth e x []) w + nth k b 0 /\
      nth k (nth e probas []) 0 = sigmoid (nth k (nth e logits []) 0).
Proof.
  intros Hx. eexists. eexists.
  split; [apply coral_layer_ok, Hx|].
  split; [apply length_map|]. split; [apply length_map|].
  split; [|split].
  - unfold rect. rewrite Forall_map. apply Forall_forall.
    intros row _. apply length_map.
  - unfold rect. rewrite Forall_map. apply Forall_forall.
    intros row _. apply length_map.
  - intros e k He Hk.
    rewrite !(nth_map_lt _ x e _ []) by exact He.
    rewrite !(nth_map_lt _ b k _ 0) by exact Hk.
    split; reflexivity.
Qed.

Lemma coral_layer_values_witness :
  exists logits probas : tensor2,
    coral_layer [1; 2] [0; 1; 2] [[3; 4]] = Ok (logits, probas) /\
    length logits = 1%nat /\ length probas = 1%nat /\
    rect 3 logits /\ rect 3 probas /\
    forall e k : nat, (e < 1)%nat -> (k < 3)%nat ->
      nth k (nth e logits []) 0 = dot (nth e [[3; 4]] []) [1; 2] + nth k [0; 1; 2] 0 /\
      nth k (nth e probas []) 0 = sigmoid (nth k (nth e logits []) 0).
Proof.
  apply (coral_layer_values [1; 2] [0; 1; 2] [[3; 4]]).
  repeat constructor.
Defined.

(** X15.  On a batch with at least one row, the CORAL layer raises exactly
    when some row of its input does not have the layer's input size; the
    size of the bias never makes it raise. *)
Theorem coral_layer_rejects (w b : tensor1) (x : tensor2) :
  x <> [] ->
  (rejected (coral_layer w b x) <->
   exists row, In row x /\ length row <> length w).
Proof.
  intros _. split.
  - intros Hrej.
    destruct (Forall_Exists_dec (fun row => length row = length w)
                (fun row => Nat.eq_dec (length row) (length w)) x) as [Hall|Hex].
    + rewrite coral_layer_ok in Hrej by exact Hall.
      exfalso. exact (not_rejected_ok _ Hrej).
    + apply Exists_exists in Hex. exact Hex.
  - intros Hex. exists RuntimeError. unfold coral_layer.
    rewrite fc_rejects by exact Hex. reflexivity.
Qed.

Lemma coral_layer_rejects_witness :
  rejected (coral_layer [1; 2] [0; 1; 2] [[3; 4; 5]]) <->
  exists row, In row [[3; 4; 5]] /\ length row <> length [1; 2].
Proof.
  apply (coral_layer_rejects [1; 2] [0; 1; 2] [[3; 4; 5]]).
  discriminate.
Defined.

(** ** Rank consistency *)

Lemma bsum_bounds (bs : list bool) : (0 <= bsum bs <= Z.of_nat (length bs))%Z.
Proof.
  induction bs as [|b bs IH]; cbn [bsum fold_right length].
  - lia.
  - fold (bsum bs). destruct b; lia.
Qed.

Lemma all_false_repeat (bs : list bool) :
  (forall j, (j < length bs)%nat -> nth j bs false = false) ->
  bs = repeat false (length bs).
Proof.
  intros H. apply (nth_ext _ _ false false).
  - rewrite repeat_length. reflexivity.
  - intros j Hj. rewrite (H j Hj). symmetry. apply nth_repeat_lt, Hj.
Qed.

(** A row of booleans in which a [true] is never preceded by a [false]
    is a run of [true] followed by a run of [false]. *)
Lemma bools_prefix (bs : list bool) :
  (forall i j, (i <= j < length bs)%nat ->
     nth j bs false = true -> nth i bs false = true) ->
  bs = repeat true (Z.to_nat (bsum bs))
       ++ repeat false (length bs - Z.to_nat (bsum bs)).
Proof.
  induction bs as [|b bs IH]; intros H.
  - reflexivity.
  - destruct b.
    + cbn [bsum fold_right]. fold (bsum bs).
      pose proof (bsum_bounds bs) as Hb.
      replace (Z.to_nat (1 + bsum bs)) with (S (Z.to_nat (bsum bs))) by lia.
      cbn [repeat app length Nat.sub]. f_equal. apply IH.
      intros i j Hij Hj. apply (H (S i) (S j)); [cbn; lia | exact Hj].
    + assert (Hall : forall j, (j < length bs)%nat -> nth j bs false = false).
      { intros j Hj. apply not_true_is_false. intros Ht.
        specialize (H 0%nat (S j) ltac:(cbn; lia) Ht). discriminate. }
      assert (Hz : bsum (false :: bs) = 0%Z).
      { cbn [bsum fold_right]. fold (bsum bs).
        rewrite (all_false_repeat bs Hall), bsum_repeat_false. reflexivity. }
      rewrite Hz. cbn [Z.to_nat repeat app length Nat.sub].
      f_equal. apply all_false_repeat, Hall.
Qed.

Lemma sigmoid_monotone (x y : R) : x <= y -> sigmoid x <= sigmoid y.
Proof.
  intros Hxy. rewrite !sigmoid_alt.
  pose proof (exp_pos (- y)) as Hy.
  apply Rinv_le_contravar; [lra|].
  destruct Hxy as [Hlt | ->]; [|lra].
  pose proof (exp_increasing (- y) (- x) ltac:(lra)). lra.
Qed.

Lemma gt_half_label_to_levels (y : Z) (n : nat) :
  (0 <= y <= Z.of_nat n)%Z ->
  map gt_half (label_to_levels y (Z.of_nat n + 1))
  = repeat true (Z.to_nat y) ++ repeat false (n - Z.to_nat y).
Proof.
  intros Hy. rewrite label_to_levels_unfold, map_app, !map_repeat.
  rewrite gt_half_1, gt_half_0. do 2 f_equal. lia.
Qed.

(** X16.  Rank consistency.  When the bias units do not increase with the
    threshold index, the probabilities of every example do not increase
    either, and the predicted levels [probas > 0.5] of an example are
    exactly the levels that [label_to_levels] gives for its predicted
    label: ones up to the label, zeros after. *)
Theorem coral_rank_consistency (w b : tensor1) (x : tensor2) :
  rect (length w) x ->
  (forall i j : nat, (i <= j < length b)%nat -> nth j b 0 <= nth i b 0) ->
  exists logits probas : tensor2,
    coral_layer w b x = Ok (logits, probas) /\
    forall e : nat, (e < length x)%nat ->
      (forall i j : nat, (i <= j < length b)%nat ->
         nth j (nth e probas []) 0 <= nth i (nth e probas []) 0) /\
      exists y : Z,
        nth_error (predicted_labels probas) e = Some y /\
        (0 <= y <= Z.of_nat (length b))%Z /\
        nth e (predict_levels probas) []
        = map gt_half (label_to_levels y (Z.of_nat (length b) + 1)).
Proof.
  intros Hx Hb. eexists. eexists.
  split; [apply coral_layer_ok, Hx|].
  intros e He.
  set (probas := map (fun row => map (fun bk => sigmoid (dot row w + bk)) b) x).
  set (c := dot (nth e x []) w).
  assert (Hrow : nth e probas [] = map (fun bk => sigmoid (c + bk)) b).
  { unfold probas, c. rewrite (nth_map_lt _ x e _ []) by exact He.
    reflexivity. }
  assert (Hmono : forall i j : nat, (i <= j < length b)%nat ->
            nth j (nth e probas []) 0 <= nth i (nth e probas []) 0).
  { intros i j Hij. rewrite Hrow.
    rewrite !(nth_map_lt _ b _ _ 0) by lia.
    apply sigmoid_monotone. specialize (Hb i j Hij). lra. }
  split; [exact Hmono|].
  exists (bsum (map gt_half (nth e probas []))).
  pose proof (bsum_bounds (map gt_half (nth e probas []))) as Hbd.
  assert (Hlen : length (nth e probas []) = length b)
    by (rewrite Hrow; apply length_map).
  rewrite length_map, Hlen in Hbd.
  split; [|split].
  - apply predicted_labels_nth_error.
    apply nth_error_nth'. unfold probas. rewrite length_map. exact He.
  - exact Hbd.
  - rewrite gt_half_label_to_levels by exact Hbd.
    assert (Hpl : nth e (predict_levels probas) [] = map gt_half (nth e probas [])).
    { unfold predict_levels. apply (map_nth (map gt_half) probas [] e). }
    rewrite Hpl.
    rewrite (bools_prefix (map gt_half (nth e probas []))) at 1.
    + rewrite length_map, Hlen. reflexivity.
    + rewrite length_map, Hlen. intros i j Hij Hj.
      rewrite (nth_map_lt gt_half _ _ _ 0) in Hj by lia.
      rewrite (nth_map_lt gt_half _ _ _ 0) by lia.
      apply (gt_half_monotone _ _ (Hmono i j Hij) Hj).
Qed.

Lemma coral_rank_consistency_witness :
  exists logits probas : tensor2,
    coral_layer [1; 2] [2; 1; 0] [[3; 4]] = Ok (logits, probas) /\
    forall e : nat, (e < 1)%nat ->
      (forall i j : nat, (i <= j < 3)%nat ->
         nth j (nth e probas []) 0 <= nth i (nth e probas []) 0) /\
      exists y : Z,
        nth_error (predicted_labels probas) e = Some y /\
        (0 <= y <= Z.of_nat 3)%Z /\
        nth e (predict_levels probas) []
        = map gt_half (label_to_levels y (Z.of_nat 3 + 1)).
Proof.
  apply (coral_rank_consistency [1; 2] [2; 1; 0] [[3; 4]]).
  - repeat constructor.
  - intros [|[|[|i]]] [|[|[|j]]] Hij; cbn in Hij; try lia; cbn; lra.
Defined.

Lemma bsum_repeat (q : bool) (n : nat) :
  bsum (repeat q n) = if q then Z.of_nat n else 0%Z.
Proof.
  destruct q; [apply bsum_repeat_true | apply bsum_repeat_false].
Qed.

(** X17.  With bias units that are all equal, as the zeros the layer starts
    from, every example gets the same probability on all thresholds, and
    its predicted label is either 0 or the number of thresholds. *)
Theorem coral_constant_bias (w : tensor1) (c : R) (n : nat) (x : tensor2) :
  rect (length w) x ->
  exists logits probas : tensor2,
    coral_layer w (repeat c n) x = Ok (logits, probas) /\
    forall e : nat, (e < length x)%nat ->
      nth e probas [] = repeat (sigmoid (dot (nth e x []) w + c)) n /\
      exists y : Z,
        nth_error (predicted_labels probas) e = Some y /\
        (y = 0%Z \/ y = Z.of_nat n).
Proof.
  intros Hx. eexists. eexists.
  split; [apply coral_layer_ok, Hx|].
  intros e He.
  set (probas := map (fun row => map (fun bk => sigmoid (dot row w + bk))
                                     (repeat c n)) x).
  assert (Hrow : nth e probas [] = repeat (sigmoid (dot (nth e x []) w + c)) n).
  { unfold probas. rewrite (nth_map_lt _ x e _ []) by exact He.
    rewrite map_repeat. reflexivity. }
  split; [exact Hrow|].
  exists (bsum (map gt_half (nth e probas []))). split.
  - apply predicted_labels_nth_error.
    apply nth_error_nth'. unfold probas. rewrite length_map. exact He.
  - rewrite Hrow, map_repeat, bsum_repeat.
    destruct (gt_half _); [right | left]; reflexivity.
Qed.

Lemma coral_constant_bias_witness :
  exists logits probas : tensor2,
    coral_layer [1; 2] (repeat 0 4) [[3; 4]] = Ok (logits, probas) /\
    forall e : nat, (e < 1)%nat ->
      nth e probas [] = repeat (sigmoid (dot (nth e [[3; 4]] []) [1; 2] + 0)) 4 /\
      exists y : Z,
        nth_error (predicted_labels probas) e = Some y /\
        (y = 0%Z \/ y = Z.of_nat 4).
Proof.
  apply (coral_constant_bias [1; 2] 0 4 [[3; 4]]).
  repeat constructor.
Defined.

(** ** The pieces together *)

Lemma rank_loss_nonneg (n : nat) (s v : tensor2) (w : tensor1) :
  s <> [] -> length s = length v -> rect n v -> length w = n ->
  binary v -> Forall (fun x => 0 <= x) w ->
  0 <= rank_loss n s v w.
Proof.
  intros Hne Hlen Hv Hw Hbin Hpos. unfold rank_loss, mean_over_batch.
  assert (HB : 0 < / INR (length s)).
  { apply Rinv_0_lt_compat, lt_0_INR. destruct s; [contradiction | cbn; lia]. }
  assert (Hsum :
    rsum (map (fun e => example_sum n (nth e s []) (nth e v []) w) (seq 0 (length s)))
    <= 0).
  { apply rsum_le_0. rewrite Forall_map, Forall_forall.
    intros e He. apply in_seq in He.
    apply example_sum_nonpos; try assumption.
    - apply rect_nth; [assumption | lia].
    - unfold binary in Hbin. rewrite Forall_forall in Hbin.
      apply Hbin, nth_In. lia. }
  unfold Rdiv. nra.
Qed.

Lemma predicted_labels_range (n : nat) (probas : tensor2) :
  rect n probas ->
  Forall (fun y => 0 <= y <= Z.of_nat n)%Z (predicted_labels probas).
Proof.
  intros Hr. unfold predicted_labels, predict_levels.
  rewrite map_map, Forall_map.
  unfold rect in Hr. eapply Forall_impl; [|exact Hr].
  cbn. intros row Hrow.
  pose proof (bsum_bounds (map gt_half row)) as Hb.
  rewrite length_map, Hrow in Hb. exact Hb.
Qed.

(** X18.  One training step fits together.  For a non-empty batch of labels
    of [0, K-1], inputs of the layer's input size, one per label, [K-1]
    bias units and the all-ones importance weights, the encoder, the CORAL
    layer and [loss_fn2] all succeed; the loss is a number that is not
    negative, and every label predicted from the probabilities lies in
    [0, K-1]. *)
Theorem coral_step_well_formed (K : Z) (ys : list Z) (w b : tensor1) (x : tensor2) :
  (2 <= K)%Z -> ys <> [] -> Forall (fun y => 0 <= y <= K - 1)%Z ys ->
  length x = length ys -> rect (length w) x -> length b = Z.to_nat (K - 1) ->
  exists (levels logits probas : tensor2) (cost : R),
    encode_labels ys K = Ok levels /\
    coral_layer w b x = Ok (logits, probas) /\
    loss_fn2 logits levels (repeat 1 (Z.to_nat (K - 1))) = Ok (Real cost) /\
    0 <= cost /\
    length (predicted_labels probas) = length ys /\
    Forall (fun y => 0 <= y <= K - 1)%Z (predicted_labels probas).
Proof.
  intros HK Hne Hys Hlen Hx Hb.
  set (n := Z.to_nat (K - 1)).
  set (logits := map (fun row => map (fun bk => dot row w + bk) b) x).
  set (probas := map (fun row => map (fun bk => sigmoid (dot row w + bk)) b) x).
  assert (Hlv := levels_of_labels_rect K ys Hys). fold n in Hlv.
  assert (Hlg : rect n logits).
  { unfold rect, logits. rewrite Forall_map. apply Forall_forall.
    intros row _. rewrite length_map. exact Hb. }
  assert (Hpr : rect n probas).
  { unfold rect, probas. rewrite Forall_map. apply Forall_forall.
    intros row _. rewrite length_map. exact Hb. }
  assert (Hlgne : logits <> []).
  { unfold logits. destruct x; [|discriminate].
    destruct ys; [contradiction | discriminate]. }
  assert (Hll : length logits = length (levels_of_labels ys K)).
  { unfold logits, levels_of_labels. rewrite !length_map. exact Hlen. }
  exists (levels_of_labels ys K), logits, probas,
    (rank_loss n logits (levels_of_labels ys K) (repeat 1 n)).
  split.
  { rewrite encode_labels_stack. apply (torch_stack_ok n); [|exact Hlv].
    destruct ys; [contradiction | discriminate]. }
  split; [apply coral_layer_ok, Hx|].
  split.
  { apply (loss_fn2_shapes n); try assumption. apply repeat_length. }
  split.
  { apply rank_loss_nonneg; try assumption.
    - apply repeat_length.
    - unfold binary, levels_of_labels. rewrite Forall_map.
      apply Forall_forall. intros y _. apply label_to_levels_binary.
    - apply Forall_forall. intros v Hv. apply repeat_spec in Hv. lra. }
  split.
  { rewrite predicted_labels_length. unfold probas.
    rewrite length_map. exact Hlen. }
  pose proof (predicted_labels_range n probas Hpr) as Hrange.
  eapply Forall_impl; [|exact Hrange]. cbn. intros y Hy. unfold n in Hy. lia.
Qed.

Lemma coral_step_well_formed_witness :
  exists (levels logits probas : tensor2) (cost : R),
    encode_labels [2; 0]%Z 3 = Ok levels /\
    coral_layer [1; 2] [1; 0] [[3; 4]; [0; -1]] = Ok (logits, probas) /\
    loss_fn2 logits levels (repeat 1 (Z.to_nat (3 - 1))) = Ok (Real cost) /\
    0 <= cost /\
    length (predicted_labels probas) = length [2; 0]%Z /\
    Forall (fun y => 0 <= y <= 3 - 1)%Z (predicted_labels probas).
Proof.
  apply (coral_step_well_formed 3 [2; 0]%Z [1; 2] [1; 0] [[3; 4]; [0; -1]]).
  - lia.
  - discriminate.
  - repeat constructor; lia.
  - reflexivity.
  - repeat constructor.
  - reflexivity.
Defined.
